(** * Book generator: text normalisation, section assembly, document layout

    A shallow embedding of [app.py] (the variant with the word-count floor)
    and [old.py] (the variant without it).

    Python [str] values are lists of Unicode code points.  The whitespace
    table is the full table used by [str.strip] and [str.split].  The case
    tables cover Basic Latin and the Latin-1 Supplement (U+0000..U+00FF),
    together with the few code points above U+00FF that case-insensitive
    matching relates to a letter of the patterns used here; every other code
    point is treated as caseless.  [\d] is modelled on the ASCII digits. *)

From Stdlib Require Import List NArith ZArith Arith Bool Lia.
From Stdlib Require Import Ascii.
From Stdlib Require String.
Import String.StringSyntax.
Delimit Scope string_scope with string.
Bind Scope string_scope with String.string.
From Stdlib Require Import DecimalNat.
Import ListNotations.

Local Open Scope N_scope.
Local Open Scope list_scope.

(** ** Strings *)

Definition char : Type := N.
Definition str : Type := list char.

(** Decoder for the UTF-8 literals of this file. *)
Fixpoint utf8_go (pending : nat) (acc : N) (bs : list N) : str :=
  match bs with
  | [] => []
  | b :: bs' =>
      match pending with
      | S k =>
          let acc' := acc * 64 + b mod 64 in
          match k with
          | O => acc' :: utf8_go O 0 bs'
          | S _ => utf8_go k acc' bs'
          end
      | O =>
          if b <? 128 then b :: utf8_go O 0 bs'
          else if b <? 224 then utf8_go 1 (b mod 32) bs'
          else if b <? 240 then utf8_go 2 (b mod 16) bs'
          else utf8_go 3 (b mod 8) bs'
      end
  end.

Definition u8 (s : String.string) : str :=
  utf8_go O 0 (map N_of_ascii (String.list_ascii_of_string s)).

Arguments u8 s%_string.

Definition LF : char := 10.
Definition SPACE : char := 32.
Definition BANG : char := 33.
Definition LPAREN : char := 40.
Definition RPAREN : char := 41.
Definition HYPHEN : char := 45.
Definition INVERTED_BANG : char := 0xA1.
Definition EM_DASH : char := 0x2014.

Definition str_eqb (a b : str) : bool :=
  if list_eq_dec N.eq_dec a b then true else false.

Definition nonempty (s : str) : bool :=
  match s with
  | [] => false
  | _ :: _ => true
  end.

(** [str.isspace] on one code point. *)
Definition isspace (c : char) : bool :=
  ((9 <=? c) && (c <=? 13)) || ((28 <=? c) && (c <=? 32))
  || (c =? 0x85) || (c =? 0xA0) || (c =? 0x1680)
  || ((0x2000 <=? c) && (c <=? 0x200A))
  || (c =? 0x2028) || (c =? 0x2029) || (c =? 0x202F)
  || (c =? 0x205F) || (c =? 0x3000).

(** [s.lstrip()], [s.rstrip()], [s.strip()]. *)
Fixpoint lstrip (s : str) : str :=
  match s with
  | [] => []
  | c :: s' => if isspace c then lstrip s' else s
  end.

Fixpoint rstrip (s : str) : str :=
  match s with
  | [] => []
  | c :: s' =>
      match rstrip s' with
      | [] => if isspace c then [] else [c]
      | r => c :: r
      end
  end.

Definition strip (s : str) : str := rstrip (lstrip s).

(** [s.split()]: the maximal runs of non-whitespace. *)
Fixpoint words_go (cur : str) (s : str) : list str :=
  match s with
  | [] => if nonempty cur then [cur] else []
  | c :: s' =>
      if isspace c
      then (if nonempty cur then cur :: words_go [] s' else words_go [] s')
      else words_go (cur ++ [c]) s'
  end.

Definition split_ws (s : str) : list str := words_go [] s.

Definition word_count (s : str) : nat := length (split_ws s).

(** [s.startswith(p)]. *)
Fixpoint startswith (p s : str) : bool :=
  match p, s with
  | [], _ => true
  | _ :: _, [] => false
  | a :: p', b :: s' => (a =? b) && startswith p' s'
  end.

(** [s.split(sep)] for a non-empty separator: occurrences are taken from
    left to right and do not overlap; [skip] counts the characters of an
    occurrence still to be passed over. *)
Fixpoint split_go (sep : str) (skip : nat) (cur : str) (s : str) : list str :=
  match s with
  | [] => [cur]
  | c :: s' =>
      match skip with
      | S k => split_go sep k cur s'
      | O =>
          if startswith sep s
          then cur :: split_go sep (pred (length sep)) [] s'
          else split_go sep O (cur ++ [c]) s'
      end
  end.

Definition split (sep : str) (s : str) : list str := split_go sep O [] s.

(** [sep.join(l)]. *)
Fixpoint join (sep : str) (l : list str) : str :=
  match l with
  | [] => []
  | x :: l' =>
      match l' with
      | [] => x
      | _ :: _ => x ++ sep ++ join sep l'
      end
  end.

(** [s.replace(old, new, 1)] for one-character [old] and [new]. *)
Fixpoint replace_first (old new : char) (s : str) : str :=
  match s with
  | [] => []
  | c :: s' => if c =? old then new :: s' else c :: replace_first old new s'
  end.

(** [s.replace(old, new)] for one-character [old] and [new]. *)
Definition replace_all (old new : char) (s : str) : str :=
  map (fun c => if c =? old then new else c) s.

(** ** Case tables *)

Definition is_upper_latin (c : char) : bool :=
  ((0x41 <=? c) && (c <=? 0x5A))
  || ((0xC0 <=? c) && (c <=? 0xDE) && negb (c =? 0xD7)).

Definition is_lower_latin (c : char) : bool :=
  ((0x61 <=? c) && (c <=? 0x7A))
  || ((0xDF <=? c) && (c <=? 0xFF) && negb (c =? 0xF7))
  || (c =? 0xAA) || (c =? 0xB5) || (c =? 0xBA).

(** The Cased property, which [str.title] consults. *)
Definition is_cased (c : char) : bool := is_upper_latin c || is_lower_latin c.

Definition to_lower (c : char) : char :=
  if is_upper_latin c then c + 32 else c.

(** Full title-case mapping: U+00DF maps to two characters, U+00B5 and
    U+00FF leave the Latin-1 block. *)
Definition to_title (c : char) : str :=
  if c =? 0xDF then [0x53; 0x73]
  else if c =? 0xB5 then [0x39C]
  else if c =? 0xFF then [0x178]
  else if ((0x61 <=? c) && (c <=? 0x7A))
          || ((0xE0 <=? c) && (c <=? 0xFE) && negb (c =? 0xF7))
       then [c - 32]
       else [c].

(** [s.lower()], [s.capitalize()], [s.title()]. *)
Definition lower (s : str) : str := map to_lower s.

Definition capitalize (s : str) : str :=
  match s with
  | [] => []
  | c :: s' => to_title c ++ lower s'
  end.

Fixpoint title_go (previous_is_cased : bool) (s : str) : str :=
  match s with
  | [] => []
  | c :: s' =>
      (if previous_is_cased then [to_lower c] else to_title c)
        ++ title_go (is_cased c) s'
  end.

Definition title (s : str) : str := title_go false s.

(** Decimal rendering of a number inside an f-string. *)
Fixpoint digits_of_uint (u : Decimal.uint) : str :=
  match u with
  | Decimal.Nil => []
  | Decimal.D0 u' => 48 :: digits_of_uint u'
  | Decimal.D1 u' => 49 :: digits_of_uint u'
  | Decimal.D2 u' => 50 :: digits_of_uint u'
  | Decimal.D3 u' => 51 :: digits_of_uint u'
  | Decimal.D4 u' => 52 :: digits_of_uint u'
  | Decimal.D5 u' => 53 :: digits_of_uint u'
  | Decimal.D6 u' => 54 :: digits_of_uint u'
  | Decimal.D7 u' => 55 :: digits_of_uint u'
  | Decimal.D8 u' => 56 :: digits_of_uint u'
  | Decimal.D9 u' => 57 :: digits_of_uint u'
  end.

Definition str_of_nat (n : nat) : str := digits_of_uint (Nat.to_uint n).

(** ** Regular-expression substitution *)

(** A matcher receives the text from the current position onwards and
    returns the length of the match that starts there, if any.  None of the
    patterns of this program looks behind the current position. *)
Definition matcher : Type := str -> option nat.

(** [re.sub(pattern, repl, text)] with a replacement that has no group
    reference: matches are taken from left to right and do not overlap;
    [skip] counts the characters of a match still to be consumed. *)
Fixpoint sub_go (m : matcher) (repl : str) (skip : nat) (s : str) : str :=
  match s with
  | [] => []
  | c :: s' =>
      match skip with
      | S k => sub_go m repl k s'
      | O =>
          match m s with
          | Some (S n) => repl ++ sub_go m repl n s'
          | _ => c :: sub_go m repl O s'
          end
      end
  end.

Definition re_sub (m : matcher) (repl : str) (s : str) : str :=
  sub_go m repl O s.

(** Lower-casing used by the regex engine under IGNORECASE: the simple
    one-to-one mapping.  U+0130, U+212A and U+212B are the code points
    above U+00FF that it sends into Latin-1. *)
Definition sre_lower (c : char) : char :=
  if c =? 0x130 then 0x69
  else if c =? 0x212A then 0x6B
  else if c =? 0x212B then 0xE5
  else to_lower c.

(** One pattern literal [p] against one text character [c] under
    IGNORECASE; dotless i and long s are the extra case equivalents of the
    letters i and s. *)
Definition ci_eq (p c : char) : bool :=
  let l := sre_lower c in
  (l =? sre_lower p)
  || ((sre_lower p =? 0x69) && (l =? 0x131))
  || ((sre_lower p =? 0x73) && (l =? 0x17F)).

(** A literal pattern under IGNORECASE. *)
Fixpoint ci_prefix (p s : str) : bool :=
  match p, s with
  | [], _ => true
  | _ :: _, [] => false
  | a :: p', b :: s' => ci_eq a b && ci_prefix p' s'
  end.

Definition m_literal (p : str) : matcher :=
  fun s => if ci_prefix p s then Some (length p) else None.

(** The text up to, and not including, the first line feed: what [.*]
    can range over. *)
Fixpoint first_line (s : str) : str :=
  match s with
  | [] => []
  | c :: s' => if c =? LF then [] else c :: first_line s'
  end.

(** Index of the first and of the last occurrence of a character. *)
Fixpoint index_of (x : char) (s : str) : option nat :=
  match s with
  | [] => None
  | c :: s' =>
      if c =? x then Some O
      else match index_of x s' with
           | Some i => Some (S i)
           | None => None
           end
  end.

Fixpoint rindex_of (x : char) (s : str) : option nat :=
  match s with
  | [] => None
  | c :: s' =>
      match rindex_of x s' with
      | Some i => Some (S i)
      | None => if c =? x then Some O else None
      end
  end.

(** [r"¡.*!"]: greedy, so up to the last exclamation mark of the line. *)
Definition m_exclamation : matcher :=
  fun s =>
    match s with
    | [] => None
    | c :: s' =>
        if ci_eq INVERTED_BANG c
        then match rindex_of BANG (first_line s') with
             | Some i => Some (S (S i))
             | None => None
             end
        else None
    end.

Definition is_digit (c : char) : bool := (48 <=? c) && (c <=? 57).

Fixpoint count_while (f : char -> bool) (s : str) : nat :=
  match s with
  | [] => O
  | c :: s' => if f c then S (count_while f s') else O
  end.

(** A literal followed by [\d+]. *)
Definition m_literal_digits (p : str) : matcher :=
  fun s =>
    if ci_prefix p s
    then match count_while is_digit (skipn (length p) s) with
         | O => None
         | S d => Some (length p + S d)%nat
         end
    else None.

(** [r"\(.*?\)"]: lazy, so up to the first closing parenthesis of the
    line. *)
Definition m_parenthetical : matcher :=
  fun s =>
    match s with
    | [] => None
    | c :: s' =>
        if c =? LPAREN
        then match index_of RPAREN (first_line s') with
             | Some i => Some (S (S i))
             | None => None
             end
        else None
    end.

(** [r"\n{3,}"]. *)
Definition m_linebreaks : matcher :=
  fun s =>
    let n := count_while (N.eqb LF) s in
    if (3 <=? n)%nat then Some n else None.

(** ** Text normaliser ([app.py]) *)

Definition is_marker (c : char) : bool :=
  (c =? 35) || (c =? 42) || (c =? 95) || (c =? 96).

(** [clean_markdown]: [re.sub(r'[#*_`]', '', text)], then [strip]. *)
Definition clean_markdown (text : str) : str :=
  strip (filter (fun c => negb (is_marker c)) text).

Definition pat_here_is_chapter : str :=
  Eval vm_compute in u8 "Aquí está el capítulo ".
Definition pat_this_chapter_deals : str :=
  Eval vm_compute in u8 "Este capítulo trata sobre".
Definition pat_in_this_chapter : str :=
  Eval vm_compute in u8 "En este capítulo".
Definition pat_goal_of_chapter : str :=
  Eval vm_compute in u8 "El objetivo de este capítulo".
Definition pat_lets_explore : str :=
  Eval vm_compute in u8 "Vamos a explorar".

(** The list [patterns] of [remove_unnecessary_comments], in its order;
    all are compiled with IGNORECASE. *)
Definition patterns : list matcher :=
  [ m_exclamation;
    m_literal_digits pat_here_is_chapter;
    m_literal pat_this_chapter_deals;
    m_literal pat_in_this_chapter;
    m_literal pat_goal_of_chapter;
    m_literal pat_lets_explore ].

(** The loop [for pattern in patterns: text = re.sub(pattern, "", text)]. *)
Definition remove_patterns (ps : list matcher) (text : str) : str :=
  fold_left (fun t m => re_sub m [] t) ps text.

Definition remove_unnecessary_comments (text : str) : str :=
  let text := remove_patterns patterns text in
  let text := re_sub m_parenthetical [] text in
  let text := re_sub m_linebreaks [LF; LF] text in
  strip text.

(** What [generate_chapter] of [app.py] applies to the fetched content. *)
Definition normalize (content : str) : str :=
  remove_unnecessary_comments (clean_markdown content).

(** [process_lists]; [lines_go] is the body of the loop over [lines], with
    the flag [in_list], and returns [processed_lines]. *)
Fixpoint lines_go (in_list : bool) (lines : list str) : list str :=
  match lines with
  | [] => []
  | line :: rest =>
      let stripped_line := strip line in
      if startswith [HYPHEN] stripped_line
      then replace_first HYPHEN EM_DASH stripped_line :: lines_go true rest
      else if in_list
           then [] :: stripped_line :: lines_go false rest
           else stripped_line :: lines_go false rest
  end.

Definition processed_lines (text : str) : list str :=
  lines_go false (split [LF] text).

Definition process_lists (text : str) : str :=
  join [LF; LF] (processed_lines text).

(** The whole treatment of a section's text in [app.py]: normalised when
    generated, restructured when the document is built. *)
Definition normalize_full (content : str) : str :=
  process_lists (normalize content).

(** ** Titles *)

Definition spanish : str := Eval vm_compute in u8 "spanish".

(** [format_title]; [None] is the [IndexError] of [words[0]]. *)
Definition format_title (title_text language : str) : option str :=
  if str_eqb (lower language) spanish
  then
    match split_ws title_text with
    | [] => None
    | w :: ws => Some (join [SPACE] (capitalize w :: map lower ws))
    end
  else Some (title title_text).


(** ** Content fetcher *)

(** A decoded JSON value, as [response.json()] returns it; an object is
    the list of the items of the resulting dictionary. *)
#[local] Unset Elimination Schemes.
Inductive json : Type :=
| JNull
| JBool (b : bool)
| JNum (z : Z)
| JStr (s : str)
| JArr (items : list json)
| JObj (items : list (str * json)).
#[local] Set Elimination Schemes.

(** What [requests.post] comes back with: an exception of the transport, or
    a response with a status code and a body ([None]: the body is not
    JSON). *)
Inductive http_result : Type :=
| Transport_error
| Response (status : N) (body : option json).

(** The remote endpoint: its answer to the k-th request of the run. *)
Definition network : Type := nat -> http_result.

Fixpoint lookup (key : str) (items : list (str * json)) : option json :=
  match items with
  | [] => None
  | (k, v) :: rest => if str_eqb k key then Some v else lookup key rest
  end.

(** [v.get(key, default)]; [None] is the exception raised when [v] is not
    a dictionary. *)
Definition py_get (v : json) (key : str) (default : json) : option json :=
  match v with
  | JObj items =>
      Some match lookup key items with
           | Some x => x
           | None => default
           end
  | _ => None
  end.

(** [v[0]]; [None] is the exception raised on an empty sequence, on a
    dictionary (no key [0]) and on a value that cannot be indexed. *)
Definition py_item0 (v : json) : option json :=
  match v with
  | JArr (x :: _) => Some x
  | JStr (c :: _) => Some (JStr [c])
  | _ => None
  end.

Definition placeholder : str :=
  Eval vm_compute in u8 "Error generating the chapter.".

Definition key_candidates : str := Eval vm_compute in u8 "candidates".
Definition key_content : str := Eval vm_compute in u8 "content".
Definition key_parts : str := Eval vm_compute in u8 "parts".
Definition key_text : str := Eval vm_compute in u8 "text".

(** [response.raise_for_status()] raises exactly on 4xx and 5xx. *)
Definition raises_for_status (status : N) : bool :=
  (400 <=? status) && (status <? 600).

Definition and_then {A B : Type} (x : option A) (f : A -> option B) : option B :=
  match x with
  | Some a => f a
  | None => None
  end.

(** The body of the [try]; [None] means that an exception reached the
    [except Exception] clause. *)
Definition try_fetch (r : http_result) : option json :=
  match r with
  | Transport_error => None
  | Response status body =>
      if raises_for_status status then None
      else
        and_then body (fun j =>
        and_then (py_get j key_candidates (JArr [JObj []])) (fun cands =>
        and_then (py_item0 cands) (fun cand =>
        and_then (py_get cand key_content (JObj [])) (fun cont =>
        and_then (py_get cont key_parts (JArr [JObj []])) (fun parts =>
        and_then (py_item0 parts) (fun part =>
        py_get part key_text (JStr placeholder)))))))
  end.

(** The value of [content] after the [try]/[except]. *)
Definition fetched_content (r : http_result) : json :=
  match try_fetch r with
  | Some v => v
  | None => JStr placeholder
  end.

(** Applying a string function to [content]: a value that is not a string
    makes [re.sub], or [split] in [old.py], raise outside the [try];
    [None] is that uncaught exception. *)
Definition on_str (f : str -> str) (v : json) : option str :=
  match v with
  | JStr s => Some (f s)
  | _ => None
  end.

(** ** Prompt builder *)

Definition prompt (topic audience : str) (chapter_number : nat)
    (table_of_contents specific_instructions : str)
    (is_intro is_conclusion : bool) : str :=
  let message_content :=
    if is_intro then
      u8 "Write an introduction about " ++ topic ++ u8 " for " ++ audience
        ++ u8 ". Use 500-800 words."
    else if is_conclusion then
      u8 "Write conclusions about " ++ topic ++ u8 " for " ++ audience
        ++ u8 ". Use 500-800 words."
    else
      u8 "Write chapter " ++ str_of_nat chapter_number ++ u8 " about "
        ++ topic ++ u8 " for " ++ audience ++ u8 ". Use at least 2500 words."
  in
  let message_content :=
    if nonempty table_of_contents
    then message_content ++ u8 " Follow this structure: " ++ table_of_contents
    else message_content in
  if nonempty specific_instructions
  then message_content ++ [SPACE] ++ specific_instructions
  else message_content.

(** ** Runs of the script *)

(** The state threaded through a run: the prompts posted so far, oldest
    first.  The k-th request is answered by [net k]. *)
Definition trace : Type := list str.

Inductive outcome (A : Type) : Type :=
| Done (a : A)
| Raised        (* an exception left the script *)
| Stopped       (* [st.stop()] *)
| Out_of_fuel.  (* the loop was still running when the fuel ran out *)

Arguments Done {A} a.
Arguments Raised {A}.
Arguments Stopped {A}.
Arguments Out_of_fuel {A}.

Definition run (A : Type) : Type := trace -> trace * outcome A.

Definition ret {A : Type} (a : A) : run A := fun t => (t, Done a).

Definition bind {A B : Type} (x : run A) (f : A -> run B) : run B :=
  fun t =>
    match x t with
    | (t', Done a) => f a t'
    | (t', Raised) => (t', Raised)
    | (t', Stopped) => (t', Stopped)
    | (t', Out_of_fuel) => (t', Out_of_fuel)
    end.

Notation "x <- c1 ;; c2" := (bind c1 (fun x => c2))
  (at level 61, c1 at next level, right associativity).

Definition stop {A : Type} : run A := fun t => (t, Stopped).

(** The form of the page. *)
Record form : Type := {
  topic : str;
  audience : str;
  table_of_contents : str;
  specific_instructions : str;
  num_chapters : nat;
  include_intro : bool;
  include_conclusion : bool;
  author_name : str;
  author_bio : str;
  selected_language : str
}.

(** One request: the prompt is posted and the endpoint answers. *)
Definition post (net : network) (message_content : str) : run json :=
  fun t => (t ++ [message_content], Done (fetched_content (net (length t)))).

Definition lift {A : Type} (x : option A) : run A :=
  fun t => (t, match x with Some a => Done a | None => Raised end).

(** [generate_chapter] of [app.py]. *)
Definition generate_chapter (net : network) (topic audience : str)
    (chapter_number : nat) (language table_of_contents specific_instructions : str)
    (is_intro is_conclusion : bool) : run str :=
  content <- post net (prompt topic audience chapter_number table_of_contents
                         specific_instructions is_intro is_conclusion) ;;
  lift (on_str normalize content).

Definition min_words : nat := 2500.

(** The [while word_count < 2500] loop of the handler. *)
Fixpoint pad_loop (fuel : nat) (net : network) (f : form) (i : nat)
    (chapter_content : str) : run str :=
  if (word_count chapter_content <? min_words)%nat then
    match fuel with
    | O => fun t => (t, Out_of_fuel)
    | S fuel' =>
        additional_content <-
          generate_chapter net (topic f) (audience f) i
            (lower (selected_language f)) (table_of_contents f)
            (specific_instructions f) false false ;;
        pad_loop fuel' net f i (chapter_content ++ [LF; LF] ++ additional_content)
    end
  else ret chapter_content.

(** The loop [for i in range(1, num_chapters + 1)]. *)
Fixpoint chapters_loop (fuel : nat) (net : network) (f : form)
    (numbers : list nat) (chapters : list str) : run (list str) :=
  match numbers with
  | [] => ret chapters
  | i :: rest =>
      chapter_content <-
        generate_chapter net (topic f) (audience f) i
          (lower (selected_language f)) (table_of_contents f)
          (specific_instructions f) false false ;;
      chapter_content <- pad_loop fuel net f i chapter_content ;;
      chapters_loop fuel net f rest (chapters ++ [chapter_content])
  end.

(** The handler of the "Generate Book" button of [app.py]; the result is
    the list stored in the session.  [fuel] bounds the iterations of each
    run of the word-count loop. *)
Definition generate_book (fuel : nat) (net : network) (f : form) : run (list str) :=
  if negb (nonempty (topic f)) || negb (nonempty (audience f)) then stop
  else
    chapters <-
      (if include_intro f then
         intro_content <-
           generate_chapter net (topic f) (audience f) 0
             (lower (selected_language f)) (table_of_contents f)
             (specific_instructions f) true false ;;
         ret [intro_content]
       else ret []) ;;
    chapters <- chapters_loop fuel net f (seq 1 (num_chapters f)) chapters ;;
    if include_conclusion f then
      conclusion_content <-
        generate_chapter net (topic f) (audience f) 0
          (lower (selected_language f)) (table_of_contents f)
          (specific_instructions f) false true ;;
      ret (chapters ++ [conclusion_content])
    else ret chapters.

(** ** Document builder *)

(** The paragraphs and breaks of the document body, in order.
    [Title_line]: centred, bold, 14 pt.  [Author_line]: centred, 12 pt.
    [Heading]: style "Heading <level>".  [Bio_text]: style Normal.
    [Body_text]: style Normal, justified, 11 pt, no space after. *)
Inductive block : Type :=
| Title_line (text : str)
| Author_line (text : str)
| Heading (level : nat) (text : str)
| Bio_text (text : str)
| Body_text (text : str)
| Page_break.

(** Lengths are in English Metric Units, as [Inches] returns them. *)
Record document : Type := {
  page_width : N;
  page_height : N;
  margin : N;
  blocks : list block;
  footer_page_field : bool
}.

(** The text of the heading of the i-th element of [chapters]. *)
Definition chapter_title (i : nat) (language : str) : option str :=
  let chapter_title_text :=
    if negb (str_eqb (lower language) spanish)
    then u8 "Chapter " ++ str_of_nat i
    else u8 "Capítulo " ++ str_of_nat i in
  format_title chapter_title_text language.

(** One turn of [for i, chapter in enumerate(chapters, 1)]; [restructure]
    is [process_lists] in [app.py] and absent in [old.py].  An empty
    heading would have no run to format ([runs[0]]). *)
Definition chapter_blocks (restructure : str -> str) (i : nat) (chapter language : str)
    : option (list block) :=
  and_then (chapter_title i language) (fun formatted_chapter_title =>
    if nonempty formatted_chapter_title then
      let paragraphs := split [LF; LF] (restructure chapter) in
      Some (Heading 1 formatted_chapter_title
              :: map (fun para_text => Body_text (strip (replace_all LF SPACE para_text)))
                   paragraphs
              ++ [Page_break])
    else None).

Fixpoint chapters_blocks (restructure : str -> str) (i : nat) (chapters : list str)
    (language : str) : option (list block) :=
  match chapters with
  | [] => Some []
  | chapter :: rest =>
      and_then (chapter_blocks restructure i chapter language) (fun here =>
      and_then (chapters_blocks restructure (S i) rest language) (fun there =>
      Some (here ++ there)))
  end.

Definition build_document (restructure : str -> str) (chapters : list str)
    (title_text author_name author_bio language : str) : option document :=
  and_then (format_title title_text language) (fun formatted_title =>
  and_then (chapters_blocks restructure 1 chapters language) (fun body =>
    Some {| page_width := 5029200;
            page_height := 7772400;
            margin := 731520;
            blocks :=
              [Title_line formatted_title]
                ++ (if nonempty author_name
                    then [Author_line author_name; Page_break] else [])
                ++ (if nonempty author_bio
                    then [Heading 2 (u8 "Author Information");
                          Bio_text author_bio; Page_break]
                    else [])
                ++ body;
            footer_page_field := true |})).

(** [create_word_document] of [app.py]; [None] is an exception. *)
Definition create_word_document (chapters : list str)
    (title_text author_name author_bio language : str) : option document :=
  build_document process_lists chapters title_text author_name author_bio language.


(** The level-1 headings of a document, in order. *)
Fixpoint headings (bs : list block) : list str :=
  match bs with
  | [] => []
  | Heading 1 text :: rest => text :: headings rest
  | _ :: rest => headings rest
  end.

(** ** The variant without the word-count floor ([old.py]) *)

Module Old.

Definition process_dialogues_and_lists (text : str) : str :=
  join [LF; LF] (lines_go false (split [LF] text)).

(** What [generate_chapter] of [old.py] applies to the fetched content. *)
Definition normalize (content : str) : str :=
  clean_markdown (process_dialogues_and_lists content).

Definition prompt (topic audience : str) (chapter_number : nat)
    (table_of_contents specific_instructions : str)
    (is_intro is_conclusion : bool) : str :=
  let message_content :=
    if is_intro then
      u8 "Escribe la introducción sobre " ++ topic ++ u8 " dirigida a "
        ++ audience ++ u8 "."
    else if is_conclusion then
      u8 "Escribe las conclusiones sobre " ++ topic ++ u8 " dirigidas a "
        ++ audience ++ u8 "."
    else
      u8 "Escribe el capítulo " ++ str_of_nat chapter_number ++ u8 " sobre "
        ++ topic ++ u8 " dirigido a " ++ audience ++ u8 "."
  in
  let message_content :=
    if nonempty table_of_contents
    then message_content ++ u8 " Sigue esta estructura: " ++ table_of_contents
    else message_content in
  if nonempty specific_instructions
  then message_content ++ [SPACE] ++ specific_instructions
  else message_content.

Definition generate_chapter (net : network) (topic audience : str)
    (chapter_number : nat) (language table_of_contents specific_instructions : str)
    (is_intro is_conclusion : bool) : run str :=
  content <- post net (prompt topic audience chapter_number table_of_contents
                         specific_instructions is_intro is_conclusion) ;;
  lift (on_str normalize content).

Fixpoint chapters_loop (net : network) (f : form)
    (numbers : list nat) (chapters : list str) : run (list str) :=
  match numbers with
  | [] => ret chapters
  | i :: rest =>
      chapter_content <-
        generate_chapter net (topic f) (audience f) i
          (lower (selected_language f)) (table_of_contents f)
          (specific_instructions f) false false ;;
      chapters_loop net f rest (chapters ++ [chapter_content])
  end.

Definition generate_book (net : network) (f : form) : run (list str) :=
  if negb (nonempty (topic f)) || negb (nonempty (audience f)) then stop
  else
    chapters <-
      (if include_intro f then
         intro_content <-
           generate_chapter net (topic f) (audience f) 0
             (lower (selected_language f)) (table_of_contents f)
             (specific_instructions f) true false ;;
         ret [intro_content]
       else ret []) ;;
    chapters <- chapters_loop net f (seq 1 (num_chapters f)) chapters ;;
    if include_conclusion f then
      conclusion_content <-
        generate_chapter net (topic f) (audience f) 0
          (lower (selected_language f)) (table_of_contents f)
          (specific_instructions f) false true ;;
      ret (chapters ++ [conclusion_content])
    else ret chapters.

Definition create_word_document (chapters : list str)
    (title_text author_name author_bio language : str) : option document :=
  build_document (fun chapter => chapter) chapters title_text author_name
    author_bio language.

End Old.

(** ** Notions used to state the properties *)

(** A text has no leading, respectively trailing, whitespace. *)
Definition starts_with_space (s : str) : bool :=
  match s with
  | [] => false
  | c :: _ => isspace c
  end.

Definition ends_with_space (s : str) : bool := starts_with_space (rev s).

Definition trimmed (s : str) : Prop :=
  starts_with_space s = false /\ ends_with_space s = false.

(** A pattern matches somewhere in a text. *)
Fixpoint has_match (m : matcher) (s : str) : bool :=
  match s with
  | [] => false
  | _ :: s' =>
      match m s with
      | Some (S _) => true
      | _ => has_match m s'
      end
  end.

(** One of the boilerplate patterns matches somewhere in a text. *)
Definition has_boilerplate (s : str) : bool :=
  existsb (fun m => has_match m s) patterns.




(** The entry [candidates[0].content.parts[0].text] of a response body,
    when every step of that path is there. *)
Definition member (key : str) (v : json) : option json :=
  match v with
  | JObj items => lookup key items
  | _ => None
  end.

Definition first_item (v : json) : option json :=
  match v with
  | JArr (x :: _) => Some x
  | _ => None
  end.

Definition response_text (body : json) : option json :=
  and_then (member key_candidates body) (fun cands =>
  and_then (first_item cands) (fun cand =>
  and_then (member key_content cand) (fun cont =>
  and_then (member key_parts cont) (fun parts =>
  and_then (first_item parts) (fun part =>
  member key_text part))))).

(** The failures that the fetcher answers with the placeholder. *)
Inductive caught_failure : http_result -> Prop :=
| failure_transport : caught_failure Transport_error
| failure_status status body :
    400 <= status < 600 -> caught_failure (Response status body)
| failure_not_json status : caught_failure (Response status None)
| failure_shape status body :
    response_text body = None -> caught_failure (Response status (Some body)).

(** The normalised text that the k-th request of a run yields. *)
Definition answer (net : network) (k : nat) : option str :=
  on_str normalize (fetched_content (net k)).

(** A section after further texts were appended, each after a blank-line
    separator. *)
Definition append_all (content : str) (additions : list str) : str :=
  fold_left (fun c a => c ++ [LF; LF] ++ a) additions content.

(** The kinds of section and their order in a book. *)
Inductive role : Type :=
| Intro
| Chapter (n : nat)
| Conclusion.

Definition section_order (intro : bool) (n : nat) (conclusion : bool) : list role :=
  (if intro then [Intro] else [])
    ++ map Chapter (seq 1 n)
    ++ (if conclusion then [Conclusion] else []).

(** The generation of one section by the handler of [app.py], and of the
    sections of a list of roles one after the other. *)
Definition generate_section (fuel : nat) (net : network) (f : form) (r : role)
    : run str :=
  let generate n is_intro is_conclusion :=
    generate_chapter net (topic f) (audience f) n (lower (selected_language f))
      (table_of_contents f) (specific_instructions f) is_intro is_conclusion in
  match r with
  | Intro => generate O true false
  | Chapter i => chapter_content <- generate i false false ;;
                 pad_loop fuel net f i chapter_content
  | Conclusion => generate O false true
  end.

Fixpoint for_each {A : Type} (g : A -> run str) (rs : list A) : run (list str) :=
  match rs with
  | [] => ret []
  | r :: rest =>
      x <- g r ;;
      xs <- for_each g rest ;;
      ret (x :: xs)
  end.

Definition old_generate_section (net : network) (f : form) (r : role) : run str :=
  let generate n is_intro is_conclusion :=
    Old.generate_chapter net (topic f) (audience f) n
      (lower (selected_language f)) (table_of_contents f)
      (specific_instructions f) is_intro is_conclusion in
  match r with
  | Intro => generate O true false
  | Chapter i => generate i false false
  | Conclusion => generate O false true
  end.

(** The body of a response that carries [v] as its text, and a response
    with status 200 that carries a string. *)
Definition body_with_text (v : json) : json :=
  JObj [(key_candidates,
         JArr [JObj [(key_content,
                      JObj [(key_parts, JArr [JObj [(key_text, v)]])])]])].

Definition reply (text : str) : http_result :=
  Response 200 (Some (body_with_text (JStr text))).

(** The heading that the document builder gives to the i-th element of
    the list of sections. *)
Definition heading_label (language : str) (i : nat) : str :=
  (if str_eqb (lower language) spanish then u8 "Capítulo " else u8 "Chapter ")
    ++ str_of_nat i.

(** A form with a topic, an audience and a language. *)
Definition sample_form (n : nat) (intro conclusion : bool) (language : String.string)
    : form :=
  {| topic := u8 "Bees"; audience := u8 "children";
     table_of_contents := []; specific_instructions := [];
     num_chapters := n; include_intro := intro; include_conclusion := conclusion;
     author_name := []; author_bio := [];
     selected_language := u8 language |}.

(** A text of [n] one-letter words. *)
Definition words_text (n : nat) : str :=
  join [SPACE] (repeat [97] n).

(** A run in which the request for the second of three chapters fails:
    the endpoint answers the requests 0, 2 and 3 with 2500 words and the
    request 1 is not answered. *)
Definition net_second_fails : network :=
  fun k =>
    match k with
    | 1%nat => Transport_error
    | _ => reply (words_text 2500)
    end.

(** An endpoint whose every answer is an aside, which the normaliser
    removes entirely. *)
Definition net_quiet : network := fun _ => reply (u8 "(pause)").

(** An endpoint that first answers with one word and then with 2500. *)
Definition net_short_then_long : network :=
  fun k =>
    match k with
    | O => reply (u8 "Short.")
    | _ => reply (words_text 2500)
    end.

(** The prompt of the requests for chapter [i]. *)
Definition chapter_prompt (f : form) (i : nat) : str :=
  prompt (topic f) (audience f) i (table_of_contents f) (specific_instructions f)
    false false.

(** An endpoint that first answers with an aside only and then with 2500
    words. *)
Definition net_aside_then_long : network :=
  fun k =>
    match k with
    | O => reply (u8 "(pause)")
    | _ => reply (words_text 2500)
    end.

(** The tail of a run: the sections generated so far, then those of the
    remaining roles. *)
Definition continue_with {A : Type} (g : A -> run str) (rs : list A)
    (chapters : list str) : run (list str) :=
  fun t =>
    match for_each g rs t with
    | (t', Done xs) => (t', Done (chapters ++ xs))
    | (t', Raised) => (t', Raised)
    | (t', Stopped) => (t', Stopped)
    | (t', Out_of_fuel) => (t', Out_of_fuel)
    end.

(** A closing parenthesis occurs before the end of the current line. *)
Definition closes (s : str) : bool :=
  match index_of RPAREN (first_line s) with
  | Some _ => true
  | None => false
  end.

(** The number of line feeds at the start of a text. *)
Definition linefeeds (s : str) : nat := count_while (N.eqb LF) s.

(** ** Further notions *)

(** [out] is [inp] with some of its characters deleted. *)
Inductive deletion_of : str -> str -> Prop :=
| deletion_nil : deletion_of [] []
| deletion_drop c out inp : deletion_of out inp -> deletion_of out (c :: inp)
| deletion_keep c out inp : deletion_of out inp -> deletion_of (c :: out) (c :: inp).

(** The prompt of the requests for the section of a role, as the handlers
    call [generate_chapter] for it. *)
Definition role_prompt (f : form) (r : role) : str :=
  match r with
  | Intro =>
      prompt (topic f) (audience f) O (table_of_contents f)
        (specific_instructions f) true false
  | Chapter i => chapter_prompt f i
  | Conclusion =>
      prompt (topic f) (audience f) O (table_of_contents f)
        (specific_instructions f) false true
  end.

Definition old_role_prompt (f : form) (r : role) : str :=
  match r with
  | Intro =>
      Old.prompt (topic f) (audience f) O (table_of_contents f)
        (specific_instructions f) true false
  | Chapter i =>
      Old.prompt (topic f) (audience f) i (table_of_contents f)
        (specific_instructions f) false false
  | Conclusion =>
      Old.prompt (topic f) (audience f) O (table_of_contents f)
        (specific_instructions f) false true
  end.

(** The requests of a run, given how many were made for each section. *)
Definition requests (f : form) (order : list role) (counts : list nat) : list str :=
  concat (map (fun rk => repeat (role_prompt f (fst rk)) (snd rk))
            (combine order counts)).

(** The number of forced page breaks of a document body. *)
Fixpoint page_breaks (bs : list block) : nat :=
  match bs with
  | [] => O
  | Page_break :: rest => S (page_breaks rest)
  | _ :: rest => page_breaks rest
  end.

(** An endpoint that never answers. *)
Definition net_down : network := fun _ => Transport_error.



(** * Properties *)

(** ** Strings *)

#[local] Arguments N.eqb : simpl never.
#[local] Arguments N.leb : simpl never.
#[local] Arguments N.ltb : simpl never.
#[local] Arguments N.add : simpl never.
#[local] Arguments N.sub : simpl never.

Lemma str_eqb_eq (a b : str) : str_eqb a b = true <-> a = b.
Proof.
  unfold str_eqb. destruct (list_eq_dec N.eq_dec a b); split; congruence.
Qed.

Lemma str_eqb_neq (a b : str) : str_eqb a b = false <-> a <> b.
Proof.
  unfold str_eqb. destruct (list_eq_dec N.eq_dec a b); split; congruence.
Qed.

Lemma words_go_nil_iff (s cur : str) :
  words_go cur s = [] <-> cur = [] /\ forallb isspace s = true.
Proof.
  revert cur. induction s as [|c s IH]; intros cur; simpl.
  - destruct cur; simpl; split; intros H; try discriminate; auto.
    destruct H; discriminate.
  - destruct (isspace c); simpl.
    + destruct cur; simpl.
      * rewrite IH. tauto.
      * split; intros H; try discriminate. destruct H; discriminate.
    + rewrite IH. split; intros [H1 H2]; [destruct cur|]; discriminate.
Qed.

Lemma split_ws_nil_iff (s : str) :
  split_ws s = [] <-> forallb isspace s = true.
Proof.
  unfold split_ws. rewrite words_go_nil_iff. tauto.
Qed.

Ltac to_prop :=
  repeat match goal with
         | H : _ || _ = true |- _ => apply orb_true_iff in H; destruct H
         | H : _ && _ = true |- _ => apply andb_true_iff in H; destruct H
         | H : negb _ = true |- _ => apply negb_true_iff in H
         | H : (_ <=? _) = true |- _ => apply N.leb_le in H
         | H : (_ <? _) = true |- _ => apply N.ltb_lt in H
         | H : (_ =? _) = true |- _ => apply N.eqb_eq in H
         | H : (_ =? _) = false |- _ => apply N.eqb_neq in H
         | H : (_ <=? _) = false |- _ => apply N.leb_gt in H
         | H : (_ <? _) = false |- _ => apply N.ltb_ge in H
         end.


Lemma title_go_app (pre rest : str) (b : bool) :
  title_go b (pre ++ rest)
  = title_go b pre ++ title_go (match rev pre with
                                | [] => b
                                | c :: _ => is_cased c
                                end) rest.
Proof.
  revert b. induction pre as [|c pre IH]; intros b; simpl.
  - reflexivity.
  - rewrite IH, <- app_assoc. do 2 f_equal.
    destruct (rev pre) as [|d r] eqn:E; simpl.
    + reflexivity.
    + reflexivity.
Qed.






(** ** Titles *)



(** C10, as amended: [format_title] fails exactly when the language is
    Spanish and the title has no character that is not whitespace; so it
    returns for every other language, and for Spanish as soon as the title
    has one word. *)
Theorem format_title_fails_iff (title_text language : str) :
  format_title title_text language = None
  <-> lower language = spanish /\ forallb isspace title_text = true.
Proof.
  unfold format_title. destruct (str_eqb (lower language) spanish) eqn:E.
  - apply str_eqb_eq in E. rewrite <- split_ws_nil_iff.
    destruct (split_ws title_text); split; intros H; try discriminate; auto.
    destruct H; discriminate.
  - apply str_eqb_neq in E. split; intros H; [discriminate|].
    destruct H; contradiction.
Qed.

Lemma format_title_fails_iff_witness :
  format_title (u8 "   ") (u8 "Spanish") = None.
Proof.
  apply (proj2 (format_title_fails_iff (u8 "   ") (u8 "Spanish"))).
  split; reflexivity.
Defined.

(** C10, as stated: a title that is not empty can still make the Spanish
    branch fail; a single space does. *)
Lemma format_title_nonempty_title_fails :
  ~ (forall title_text : str,
       title_text <> [] -> format_title title_text (u8 "spanish") <> None).
Proof.
  intros H. apply (H [SPACE]); [discriminate|reflexivity].
Qed.

(** ** List restructuring *)



(** ** Boilerplate removal *)

(** C8: the exclamation pattern runs from an inverted exclamation mark to
    the last exclamation mark of the line, so the prose between two
    exclamatory phrases is deleted with them, although on its own it is
    kept. *)
Theorem exclamation_removal_deletes_prose :
  m_exclamation (u8 "¡Hola! ordinary prose ¡Adiós!")
  = Some (length (u8 "¡Hola! ordinary prose ¡Adiós!"))
  /\ remove_unnecessary_comments (u8 "¡Hola! ordinary prose ¡Adiós!") = []
  /\ remove_unnecessary_comments (u8 " ordinary prose ") = u8 "ordinary prose"
  /\ has_boilerplate (u8 " ordinary prose ") = false.
Proof.
  repeat split; vm_compute; reflexivity.
Qed.

(** ** Content fetcher *)

Lemma nonempty_true (s : str) : s <> [] -> nonempty s = true.
Proof. destruct s; [contradiction|reflexivity]. Qed.

Lemma bind_eq {A B : Type} (x : run A) (f : A -> run B) (t : trace) :
  bind x f t
  = match x t with
    | (t', Done a) => f a t'
    | (t', Raised) => (t', Raised)
    | (t', Stopped) => (t', Stopped)
    | (t', Out_of_fuel) => (t', Out_of_fuel)
    end.
Proof. reflexivity. Qed.

Lemma generate_chapter_eq (net : network) (tp au lang toc ins : str) (n : nat)
    (i1 i2 : bool) (t : trace) :
  generate_chapter net tp au n lang toc ins i1 i2 t
  = (t ++ [prompt tp au n toc ins i1 i2],
     match answer net (length t) with
     | Some s => Done s
     | None => Raised
     end).
Proof. reflexivity. Qed.

Lemma old_generate_chapter_eq (net : network) (tp au lang toc ins : str) (n : nat)
    (i1 i2 : bool) (t : trace) :
  Old.generate_chapter net tp au n lang toc ins i1 i2 t
  = (t ++ [Old.prompt tp au n toc ins i1 i2],
     match on_str Old.normalize (fetched_content (net (length t))) with
     | Some s => Done s
     | None => Raised
     end).
Proof. reflexivity. Qed.

(** The chain of [get] and [[0]] with its defaults yields the text entry
    when the path to it is there, and the placeholder otherwise. *)
Lemma fetched_content_body (status : N) (body : json) :
  raises_for_status status = false ->
  fetched_content (Response status (Some body))
  = match response_text body with
    | Some v => v
    | None => JStr placeholder
    end.
Proof.
  intros H. unfold fetched_content, try_fetch. rewrite H.
  unfold response_text, and_then, py_get, py_item0, member, first_item.
  repeat match goal with
         | |- context [lookup ?k ?items] =>
             destruct (lookup k items); cbn [lookup]; try reflexivity
         | |- context [match ?x with JNull => _ | _ => _ end] =>
             is_var x; destruct x; cbn [lookup]; try reflexivity
         | |- context [match ?x with [] => _ | _ :: _ => _ end] =>
             is_var x; destruct x; cbn [lookup]; try reflexivity
         end.
Qed.

Lemma caught_failure_content (r : http_result) :
  caught_failure r -> fetched_content r = JStr placeholder.
Proof.
  intros H. destruct H as [|status body H|status|status body H].
  - reflexivity.
  - unfold fetched_content, try_fetch, raises_for_status.
    destruct H as [H1 H2]. apply N.leb_le in H1. apply N.ltb_lt in H2.
    rewrite H1, H2. reflexivity.
  - unfold fetched_content, try_fetch.
    destruct (raises_for_status status); reflexivity.
  - destruct (raises_for_status status) eqn:E.
    + unfold fetched_content, try_fetch. rewrite E. reflexivity.
    + rewrite fetched_content_body by exact E. rewrite H. reflexivity.
Qed.

Lemma reply_content (text : str) : fetched_content (reply text) = JStr text.
Proof. reflexivity. Qed.

Lemma normalize_placeholder : normalize placeholder = placeholder.
Proof. vm_compute. reflexivity. Qed.

Lemma old_normalize_placeholder : Old.normalize placeholder = placeholder.
Proof. vm_compute. reflexivity. Qed.

Lemma min_words_eq : min_words = 2500%nat.
Proof. reflexivity. Qed.

#[local] Opaque min_words.

(** C4, as amended: on a transport error, a 4xx or 5xx status, a body that
    is not JSON, or a body in which the text entry cannot be reached,
    [generate_chapter] returns the placeholder and the run goes on; with
    three chapters of which the second meets such a failure, the first and
    the third have the text generated for them. *)
Theorem fetch_failure_is_contained (net : network) (f : form) :
  (forall t tp au lang toc ins n i1 i2,
     caught_failure (net (length t)) ->
     generate_chapter net tp au n lang toc ins i1 i2 t
     = (t ++ [prompt tp au n toc ins i1 i2], Done placeholder)
     /\ Old.generate_chapter net tp au n lang toc ins i1 i2 t
        = (t ++ [Old.prompt tp au n toc ins i1 i2], Done placeholder))
  /\ (forall t1 t3,
        topic f <> [] -> audience f <> [] ->
        include_intro f = false -> include_conclusion f = false ->
        num_chapters f = 3%nat ->
        net 0%nat = reply t1 -> caught_failure (net 1%nat) -> net 2%nat = reply t3 ->
        snd (Old.generate_book net f [])
        = Done [Old.normalize t1; placeholder; Old.normalize t3])
  /\ (forall fuel t1 t2 t3,
        topic f <> [] -> audience f <> [] ->
        include_intro f = false -> include_conclusion f = false ->
        num_chapters f = 3%nat ->
        net 0%nat = reply t1 -> caught_failure (net 1%nat) ->
        net 2%nat = reply t2 -> net 3%nat = reply t3 ->
        (min_words <= word_count (normalize t1))%nat ->
        (min_words <= word_count (placeholder ++ [LF; LF] ++ normalize t2))%nat ->
        (min_words <= word_count (normalize t3))%nat ->
        snd (generate_book (S fuel) net f [])
        = Done [normalize t1; placeholder ++ [LF; LF] ++ normalize t2; normalize t3]).
Proof.
  split; [|split].
  - intros t tp au lang toc ins n i1 i2 H.
    rewrite generate_chapter_eq, old_generate_chapter_eq. unfold answer.
    rewrite (caught_failure_content _ H). cbn [on_str].
    rewrite normalize_placeholder, old_normalize_placeholder. split; reflexivity.
  - intros t1 t3 Ht Ha Hi Hc Hn H0 H1 H2.
    unfold Old.generate_book. rewrite Hi, Hc, Hn.
    rewrite (nonempty_true _ Ht), (nonempty_true _ Ha).
    cbn [negb orb seq Old.chapters_loop].
    pose proof (caught_failure_content _ H1) as C1.
    repeat first
      [ rewrite bind_eq
      | rewrite old_generate_chapter_eq
      | progress cbn [ret length app on_str snd]
      | rewrite H0 | rewrite H2 | rewrite C1 | rewrite reply_content ].
    rewrite old_normalize_placeholder. reflexivity.
  - intros fuel t1 t2 t3 Ht Ha Hi Hc Hn H0 H1 H2 H3 W1 W2 W3.
    assert (P : (word_count placeholder <? min_words)%nat = true)
      by (rewrite min_words_eq; vm_compute; reflexivity).
    apply Nat.ltb_ge in W1, W2, W3. cbn [app] in W2.
    unfold generate_book. rewrite Hi, Hc, Hn.
    rewrite (nonempty_true _ Ht), (nonempty_true _ Ha).
    cbn [negb orb seq chapters_loop].
    pose proof (caught_failure_content _ H1) as C1.
    destruct fuel;
    repeat first
      [ rewrite bind_eq
      | rewrite generate_chapter_eq
      | rewrite normalize_placeholder
      | progress cbn [ret length app on_str snd pad_loop]
      | progress unfold answer
      | rewrite H0 | rewrite H2 | rewrite H3 | rewrite C1 | rewrite reply_content
      | rewrite W1 | rewrite W2 | rewrite W3 | rewrite P ];
    reflexivity.
Qed.

Lemma fetch_failure_is_contained_witness :
  snd (generate_book 1 net_second_fails (sample_form 3 false false "English") [])
  = Done [normalize (words_text 2500);
          placeholder ++ [LF; LF] ++ normalize (words_text 2500);
          normalize (words_text 2500)]
  /\ snd (Old.generate_book net_second_fails (sample_form 3 false false "English") [])
     = Done [Old.normalize (words_text 2500); placeholder;
             Old.normalize (words_text 2500)].
Proof.
  pose proof (fetch_failure_is_contained net_second_fails
                (sample_form 3 false false "English")) as [_ [H2 H3]].
  split.
  - apply (H3 O (words_text 2500) (words_text 2500) (words_text 2500)).
    + discriminate.
    + discriminate.
    + reflexivity.
    + reflexivity.
    + reflexivity.
    + reflexivity.
    + constructor.
    + reflexivity.
    + reflexivity.
    + apply Nat.leb_le. vm_compute. reflexivity.
    + apply Nat.leb_le. vm_compute. reflexivity.
    + apply Nat.leb_le. vm_compute. reflexivity.
  - apply (H2 (words_text 2500) (words_text 2500)).
    + discriminate.
    + discriminate.
    + reflexivity.
    + reflexivity.
    + reflexivity.
    + reflexivity.
    + constructor.
    + reflexivity.
Defined.

(** C4, as stated: a response with status 300 is not a 2xx response, yet
    [raise_for_status] lets it pass and its text is returned, not the
    placeholder. *)
Lemma fetch_non_2xx_not_placeholder :
  snd (generate_chapter
         (fun _ => Response 300 (Some (body_with_text (JStr (u8 "Hello")))))
         (u8 "Bees") (u8 "children") 1 (u8 "english") [] [] false false [])
  = Done (u8 "Hello")
  /\ u8 "Hello" <> placeholder.
Proof.
  split.
  - vm_compute. reflexivity.
  - discriminate.
Qed.

(** A text entry that is not a string passes the [try] and makes the
    normaliser raise. *)
Lemma text_not_a_string_raises :
  snd (generate_chapter
         (fun _ => Response 200 (Some (body_with_text JNull)))
         (u8 "Bees") (u8 "children") 1 (u8 "english") [] [] false false [])
  = Raised.
Proof. vm_compute. reflexivity. Qed.

(** ** Document builder *)

Lemma digits_of_uint_digits (u : Decimal.uint) :
  Forall (fun c => is_digit c = true) (digits_of_uint u).
Proof.
  induction u; simpl; constructor; auto.
Qed.

Lemma str_of_nat_digits (n : nat) :
  Forall (fun c => is_digit c = true) (str_of_nat n).
Proof. apply digits_of_uint_digits. Qed.

Lemma str_of_nat_nonempty (n : nat) : str_of_nat n <> [].
Proof.
  unfold str_of_nat. intros H.
  assert (E : Nat.to_uint n = Decimal.Nil)
    by (destruct (Nat.to_uint n); simpl in H; try discriminate; reflexivity).
  pose proof (Unsigned.to_of (Nat.to_uint n)) as T.
  rewrite Unsigned.of_to in T. rewrite E in T at 1.
  symmetry in T. apply DecimalFacts.unorm_nonnil in T. exact T.
Qed.

Lemma digit_facts (c : char) :
  is_digit c = true ->
  isspace c = false /\ is_cased c = false /\ to_lower c = c /\ to_title c = [c].
Proof.
  unfold is_digit. intros H. to_prop.
  assert (S : isspace c = false).
  { destruct (isspace c) eqn:E; [exfalso|reflexivity].
    unfold isspace in E. to_prop; lia. }
  assert (U : is_upper_latin c = false).
  { destruct (is_upper_latin c) eqn:E; [exfalso|reflexivity].
    unfold is_upper_latin in E. to_prop; lia. }
  assert (L : is_lower_latin c = false).
  { destruct (is_lower_latin c) eqn:E; [exfalso|reflexivity].
    unfold is_lower_latin in E. to_prop; lia. }
  repeat split.
  - exact S.
  - unfold is_cased. rewrite U, L. reflexivity.
  - unfold to_lower. rewrite U. reflexivity.
  - unfold to_title.
    destruct (N.eqb_spec c 0xDF); [lia|].
    destruct (N.eqb_spec c 0xB5); [lia|].
    destruct (N.eqb_spec c 0xFF); [lia|].
    destruct (N.leb_spec 0x61 c); [lia|].
    destruct (N.leb_spec 0xE0 c); [lia|]. reflexivity.
Qed.

Lemma title_go_digits (ds : str) (b : bool) :
  Forall (fun c => is_digit c = true) ds -> title_go b ds = ds.
Proof.
  intros H. revert b. induction H as [|c ds Hc _ IH]; intros b; simpl.
  - reflexivity.
  - destruct (digit_facts c Hc) as [_ [C [L T]]].
    rewrite C, L, T, IH. destruct b; reflexivity.
Qed.

Lemma lower_digits (ds : str) :
  Forall (fun c => is_digit c = true) ds -> lower ds = ds.
Proof.
  intros H. unfold lower. induction H as [|c ds Hc _ IH]; simpl.
  - reflexivity.
  - destruct (digit_facts c Hc) as [_ [_ [L _]]].
    rewrite L, IH. reflexivity.
Qed.

Lemma words_go_word (w rest cur : str) :
  forallb (fun c => negb (isspace c)) w = true ->
  words_go cur (w ++ rest) = words_go (cur ++ w) rest.
Proof.
  revert cur. induction w as [|c w IH]; intros cur H; simpl in *.
  - rewrite app_nil_r. reflexivity.
  - apply andb_true_iff in H. destruct H as [Hc Hw].
    apply negb_true_iff in Hc. rewrite Hc, IH by exact Hw.
    rewrite <- app_assoc. reflexivity.
Qed.

Lemma digits_no_space (ds : str) :
  Forall (fun c => is_digit c = true) ds ->
  forallb (fun c => negb (isspace c)) ds = true.
Proof.
  intros H. induction H as [|c ds Hc _ IH]; simpl.
  - reflexivity.
  - destruct (digit_facts c Hc) as [S _]. rewrite S, IH. reflexivity.
Qed.

Lemma split_ws_word_number (w ds : str) :
  forallb (fun c => negb (isspace c)) w = true -> w <> [] ->
  Forall (fun c => is_digit c = true) ds -> ds <> [] ->
  split_ws (w ++ [SPACE] ++ ds) = [w; ds].
Proof.
  intros Hw Nw Hd Nd. unfold split_ws.
  rewrite words_go_word by exact Hw. cbn [app words_go].
  change (isspace SPACE) with true. cbv iota.
  rewrite (nonempty_true _ Nw).
  rewrite <- (app_nil_r ds) at 1.
  rewrite words_go_word by (apply digits_no_space; exact Hd).
  cbn [app words_go]. rewrite (nonempty_true _ Nd). reflexivity.
Qed.

(** The heading of the i-th section is the label for the language followed
    by [i], whatever the kind of the section. *)
Lemma chapter_title_label (i : nat) (language : str) :
  chapter_title i language = Some (heading_label language i).
Proof.
  unfold chapter_title, heading_label, format_title.
  pose proof (str_of_nat_digits i) as D. pose proof (str_of_nat_nonempty i) as NE.
  destruct (str_eqb (lower language) spanish); cbn [negb].
  - change (u8 "Capítulo " ++ str_of_nat i)
      with (u8 "Capítulo" ++ [SPACE] ++ str_of_nat i).
    rewrite split_ws_word_number; [|reflexivity|discriminate|exact D|exact NE].
    cbn [map join]. rewrite lower_digits by exact D. reflexivity.
  - unfold title. rewrite title_go_app.
    change (title_go false (u8 "Chapter ")) with (u8 "Chapter ").
    f_equal. f_equal. apply title_go_digits. exact D.
Qed.

Lemma heading_label_nonempty (language : str) (i : nat) :
  nonempty (heading_label language i) = true.
Proof.
  unfold heading_label. destruct (str_eqb (lower language) spanish); reflexivity.
Qed.

Lemma headings_app (a b : list block) : headings (a ++ b) = headings a ++ headings b.
Proof.
  induction a as [|x a IH]; simpl.
  - reflexivity.
  - destruct x as [| |[|[|?]]| | |]; simpl; rewrite IH; reflexivity.
Qed.

Lemma headings_body (ps : list str) (g : str -> str) :
  headings (map (fun p => Body_text (g p)) ps) = [].
Proof.
  induction ps as [|p ps IH]; simpl; auto.
Qed.

Lemma chapters_blocks_headings (restructure : str -> str) (language : str)
    (chapters : list str) (i : nat) :
  exists body,
    chapters_blocks restructure i chapters language = Some body
    /\ headings body = map (heading_label language) (seq i (length chapters)).
Proof.
  revert i. induction chapters as [|chapter rest IH]; intros i.
  - exists []. split; reflexivity.
  - destruct (IH (S i)) as [there [E H]].
    cbn [chapters_blocks]. unfold chapter_blocks.
    rewrite chapter_title_label. cbn [and_then].
    rewrite heading_label_nonempty, E. cbn [and_then].
    eexists. split; [reflexivity|].
    cbn [app headings length seq map]. rewrite !headings_app, headings_body, H.
    reflexivity.
Qed.

Lemma build_document_headings (restructure : str -> str) (chapters : list str)
    (title_text author_name author_bio language : str) (doc : document) :
  build_document restructure chapters title_text author_name author_bio language
  = Some doc ->
  headings (blocks doc) = map (heading_label language) (seq 1 (length chapters)).
Proof.
  unfold build_document. intros H.
  destruct (format_title title_text language) as [ft|]; [|discriminate].
  destruct (chapters_blocks_headings restructure language chapters 1) as [body [E Hh]].
  cbn [and_then] in H. rewrite E in H. cbn [and_then] in H.
  injection H as <-. cbn [blocks].
  destruct (nonempty author_name), (nonempty author_bio);
    cbn [app headings]; exact Hh.
Qed.

(** The headings of the document number the elements of the list of
    sections in their order in the list, with the label for the language:
    every section is numbered, an introduction and a conclusion included. *)
Lemma headings_number_all_sections (chapters : list str)
    (title_text author_name author_bio language : str) (doc : document) :
  create_word_document chapters title_text author_name author_bio language
  = Some doc ->
  headings (blocks doc) = map (heading_label language) (seq 1 (length chapters)).
Proof. apply build_document_headings. Qed.

(** C2, at the failing input: a book with an introduction, two chapters
    and a conclusion.  The introduction is headed "Chapter 1", the first
    chapter "Chapter 2", the conclusion "Chapter 4"; in Spanish likewise
    with "Capítulo". *)
Theorem introduction_is_numbered_as_chapter :
  let sections := [u8 "Welcome."; u8 "First."; u8 "Second."; u8 "Goodbye."] in
  option_map (fun doc => headings (blocks doc))
    (create_word_document sections (u8 "Bees") [] [] (u8 "english"))
  = Some [u8 "Chapter 1"; u8 "Chapter 2"; u8 "Chapter 3"; u8 "Chapter 4"]
  /\ option_map (fun doc => headings (blocks doc))
       (create_word_document sections (u8 "Bees") [] [] (u8 "spanish"))
     = Some [u8 "Capítulo 1"; u8 "Capítulo 2"; u8 "Capítulo 3"; u8 "Capítulo 4"]
  /\ snd (Old.generate_book (fun k => reply (nth k sections []))
            (sample_form 2 true true "English") [])
     = Done sections.
Proof.
  repeat split; vm_compute; reflexivity.
Qed.

(** ** Word-count floor *)

Lemma words_go_separator (a b cur : str) (c : char) :
  isspace c = true ->
  words_go cur (a ++ c :: b) = words_go cur a ++ words_go [] b.
Proof.
  intros Hc. revert cur. induction a as [|x a IH]; intros cur; simpl.
  - rewrite Hc. destruct (nonempty cur); reflexivity.
  - destruct (isspace x).
    + destruct (nonempty cur); simpl; rewrite IH; reflexivity.
    + apply IH.
Qed.

Lemma word_count_append (a b : str) :
  word_count (a ++ [LF; LF] ++ b) = (word_count a + word_count b)%nat.
Proof.
  unfold word_count, split_ws. cbn [app].
  rewrite words_go_separator by reflexivity.
  rewrite length_app. f_equal.
Qed.

Lemma pad_loop_eq (fuel : nat) (net : network) (f : form) (i : nat)
    (content : str) (t : trace) :
  pad_loop fuel net f i content t
  = if (word_count content <? min_words)%nat then
      match fuel with
      | O => (t, Out_of_fuel)
      | S fuel' =>
          match answer net (length t) with
          | Some a =>
              pad_loop fuel' net f i (content ++ [LF; LF] ++ a)
                (t ++ [chapter_prompt f i])
          | None => (t ++ [chapter_prompt f i], Raised)
          end
      end
    else (t, Done content).
Proof.
  destruct fuel; cbn [pad_loop];
    destruct (word_count content <? min_words)%nat; try reflexivity.
  rewrite bind_eq, generate_chapter_eq. unfold chapter_prompt.
  destruct (answer net (length t)); reflexivity.
Qed.

Lemma pad_loop_exact (net : network) (f : form) (i : nat) (fuel : nat) :
  forall (content : str) (t t' : trace) (r : str),
    pad_loop fuel net f i content t = (t', Done r) ->
    exists additions,
      (forall j a, nth_error additions j = Some a ->
                   answer net (length t + j) = Some a)
      /\ t' = t ++ repeat (chapter_prompt f i) (length additions)
      /\ r = append_all content additions
      /\ (min_words <= word_count r)%nat
      /\ (forall j, (j < length additions)%nat ->
            (word_count (append_all content (firstn j additions)) < min_words)%nat).
Proof.
  induction fuel as [|fuel IH]; intros content t t' r H;
    rewrite pad_loop_eq in H;
    destruct (word_count content <? min_words)%nat eqn:E;
    try discriminate.
  - injection H as <- <-. apply Nat.ltb_ge in E.
    exists []. cbn [length repeat append_all fold_left].
    rewrite app_nil_r. repeat split; auto.
    + intros j a Hj. destruct j; discriminate.
    + intros j Hj. inversion Hj.
  - destruct (answer net (length t)) as [a|] eqn:A; [|discriminate].
    apply IH in H. destruct H as [adds [H1 [H2 [H3 [H4 H5]]]]].
    apply Nat.ltb_lt in E.
    exists (a :: adds). repeat split.
    + intros j b Hj. destruct j as [|j].
      * injection Hj as <-. rewrite Nat.add_0_r. exact A.
      * cbn [nth_error] in Hj. apply H1 in Hj.
        rewrite length_app in Hj. cbn [length] in Hj.
        replace (length t + S j)%nat with (length t + 1 + j)%nat by lia.
        exact Hj.
    + rewrite H2, <- app_assoc. reflexivity.
    + exact H3.
    + exact H4.
    + intros j Hj. destruct j as [|j].
      * exact E.
      * cbn [firstn append_all fold_left]. apply H5. cbn [length] in Hj. lia.
  - injection H as <- <-. apply Nat.ltb_ge in E.
    exists []. cbn [length repeat append_all fold_left].
    rewrite app_nil_r. repeat split; auto.
    + intros j a Hj. destruct j; discriminate.
    + intros j Hj. inversion Hj.
Qed.

Lemma pad_loop_reaches (net : network) (f : form) (i : nat) (additions : list str) :
  forall (fuel : nat) (content : str) (t : trace),
    (forall j a, nth_error additions j = Some a ->
                 answer net (length t + j) = Some a) ->
    (min_words <= word_count (append_all content additions))%nat ->
    (length additions <= fuel)%nat ->
    exists k,
      (k <= length additions)%nat
      /\ pad_loop fuel net f i content t
         = (t ++ repeat (chapter_prompt f i) k,
            Done (append_all content (firstn k additions))).
Proof.
  induction additions as [|a adds IH]; intros fuel content t HA HW HF;
    rewrite pad_loop_eq.
  - cbn [append_all fold_left] in HW. apply Nat.ltb_ge in HW. rewrite HW.
    exists O. cbn [repeat firstn append_all fold_left]. rewrite app_nil_r.
    split; [lia|reflexivity].
  - destruct (word_count content <? min_words)%nat eqn:E.
    + destruct fuel as [|fuel]; [cbn [length] in HF; lia|].
      pose proof (HA O a eq_refl) as A0. rewrite Nat.add_0_r in A0. rewrite A0.
      destruct (IH fuel (content ++ [LF; LF] ++ a) (t ++ [chapter_prompt f i]))
        as [k [Hk Hr]].
      * intros j b Hj. rewrite length_app. cbn [length].
        replace (length t + 1 + j)%nat with (length t + S j)%nat by lia.
        apply HA. exact Hj.
      * exact HW.
      * cbn [length] in HF. lia.
      * exists (S k). split; [cbn [length]; lia|].
        rewrite Hr, <- app_assoc. reflexivity.
    + exists O. cbn [repeat firstn append_all fold_left]. rewrite app_nil_r.
      split; [lia|reflexivity].
Qed.

Lemma generate_section_chapter_eq (fuel : nat) (net : network) (f : form)
    (i : nat) (t : trace) :
  generate_section fuel net f (Chapter i) t
  = match answer net (length t) with
    | Some first => pad_loop fuel net f i first (t ++ [chapter_prompt f i])
    | None => (t ++ [chapter_prompt f i], Raised)
    end.
Proof.
  cbn [generate_section]. rewrite bind_eq, generate_chapter_eq.
  unfold chapter_prompt. destruct (answer net (length t)); reflexivity.
Qed.

(** C3, as amended: when the generation of a chapter finishes, the text
    of the first fetch was below the floor after each proper prefix of the
    additional fetches and is at or above it after all of them; every
    request carried the prompt of the chapter and every addition follows a
    blank line.  The loop finishes whenever some number of further answers
    reaches the floor, given that much fuel; it has no bound of its own. *)
Theorem word_floor_loop (fuel : nat) (net : network) (f : form) (i : nat)
    (t : trace) :
  (forall t' r,
     generate_section fuel net f (Chapter i) t = (t', Done r) ->
     exists first additions,
       answer net (length t) = Some first
       /\ (forall j a, nth_error additions j = Some a ->
                       answer net (length t + 1 + j) = Some a)
       /\ t' = t ++ repeat (chapter_prompt f i) (1 + length additions)
       /\ r = append_all first additions
       /\ (min_words <= word_count r)%nat
       /\ (forall j, (j < length additions)%nat ->
             (word_count (append_all first (firstn j additions)) < min_words)%nat))
  /\ (forall first additions,
        answer net (length t) = Some first ->
        (forall j a, nth_error additions j = Some a ->
                     answer net (length t + 1 + j) = Some a) ->
        (min_words <= word_count (append_all first additions))%nat ->
        (length additions <= fuel)%nat ->
        exists k,
          (k <= length additions)%nat
          /\ generate_section fuel net f (Chapter i) t
             = (t ++ repeat (chapter_prompt f i) (1 + k),
                Done (append_all first (firstn k additions)))).
Proof.
  split.
  - intros t' r H. rewrite generate_section_chapter_eq in H.
    destruct (answer net (length t)) as [first|] eqn:A; [|discriminate].
    apply pad_loop_exact in H. destruct H as [adds [H1 [H2 [H3 [H4 H5]]]]].
    exists first, adds. repeat split; auto.
    + intros j a Hj. apply H1 in Hj. rewrite length_app in Hj. exact Hj.
    + rewrite H2, <- app_assoc. reflexivity.
  - intros first adds A HA HW HF. rewrite generate_section_chapter_eq, A.
    destruct (pad_loop_reaches net f i adds fuel first (t ++ [chapter_prompt f i]))
      as [k [Hk Hr]]; auto.
    + intros j a Hj. rewrite length_app. apply HA. exact Hj.
    + exists k. split; [exact Hk|]. rewrite Hr, <- app_assoc. reflexivity.
Qed.

Lemma word_floor_loop_witness :
  exists k,
    (k <= 1)%nat
    /\ generate_section 1 net_short_then_long (sample_form 1 false false "English")
         (Chapter 1) []
       = ([] ++ repeat (chapter_prompt (sample_form 1 false false "English") 1) (1 + k),
          Done (append_all (u8 "Short.") (firstn k [words_text 2500]))).
Proof.
  apply (proj2 (word_floor_loop 1 net_short_then_long
                  (sample_form 1 false false "English") 1 [])
           (u8 "Short.") [words_text 2500]).
  - vm_compute. reflexivity.
  - intros j a Hj. destruct j as [|[|j]]; try discriminate.
    injection Hj as <-. vm_compute. reflexivity.
  - apply Nat.leb_le. vm_compute. reflexivity.
  - apply le_n.
Defined.

Lemma answer_quiet (k : nat) : answer net_quiet k = Some [].
Proof. vm_compute. reflexivity. Qed.

Lemma pad_loop_quiet (f : form) (i : nat) (fuel : nat) :
  forall (content : str) (t : trace),
    forallb isspace content = true ->
    snd (pad_loop fuel net_quiet f i content t) = Out_of_fuel.
Proof.
  induction fuel as [|fuel IH]; intros content t H; rewrite pad_loop_eq;
    assert (W : (word_count content <? min_words)%nat = true)
      by (apply split_ws_nil_iff in H; unfold word_count; rewrite H;
          rewrite min_words_eq; reflexivity);
    rewrite W.
  - reflexivity.
  - rewrite answer_quiet. apply IH.
    rewrite forallb_app, H. reflexivity.
Qed.

Lemma generate_book_quiet (f : form) (fuel n : nat) (t : trace) :
  topic f <> [] -> audience f <> [] ->
  include_intro f = false -> num_chapters f = S n ->
  snd (generate_book fuel net_quiet f t) = Out_of_fuel.
Proof.
  intros Ht Ha Hi Hn. unfold generate_book. rewrite Hi, Hn.
  rewrite (nonempty_true _ Ht), (nonempty_true _ Ha).
  cbn [negb orb seq chapters_loop].
  repeat first
    [ rewrite bind_eq | rewrite generate_chapter_eq | rewrite answer_quiet
    | progress cbn [ret] ].
  match goal with
  | |- context [pad_loop ?a ?b ?c ?d ?e ?g] =>
      pose proof (pad_loop_quiet c d a e g eq_refl) as Q;
      destruct (pad_loop a b c d e g) as [t1 o]
  end.
  cbn [snd] in Q. subst o. reflexivity.
Qed.

(** C3, as stated: nothing bounds the loop.  Against an endpoint whose
    answers normalise to the empty text the generation of a chapter never
    finishes, whatever the number of iterations allowed. *)
Lemma word_floor_loop_unbounded :
  ~ (exists fuel t chapters,
       generate_book fuel net_quiet (sample_form 1 false false "English") []
       = (t, Done chapters)).
Proof.
  intros [fuel [t [chapters H]]].
  assert (E : snd (generate_book fuel net_quiet
                     (sample_form 1 false false "English") []) = Out_of_fuel).
  { apply (generate_book_quiet _ fuel O); try reflexivity; discriminate. }
  rewrite H in E. discriminate.
Qed.

(** ** Section assembler *)

Lemma for_each_cons {A : Type} (g : A -> run str) (r : A) (rs : list A) (t : trace) :
  for_each g (r :: rs) t
  = match g r t with
    | (t1, Done x) =>
        match for_each g rs t1 with
        | (t2, Done xs) => (t2, Done (x :: xs))
        | (t2, Raised) => (t2, Raised)
        | (t2, Stopped) => (t2, Stopped)
        | (t2, Out_of_fuel) => (t2, Out_of_fuel)
        end
    | (t1, Raised) => (t1, Raised)
    | (t1, Stopped) => (t1, Stopped)
    | (t1, Out_of_fuel) => (t1, Out_of_fuel)
    end.
Proof.
  cbn [for_each]. rewrite bind_eq. destruct (g r t) as [t1 [x| | |]]; reflexivity.
Qed.

Lemma for_each_cons_inv {A : Type} (g : A -> run str) (r : A) (rs : list A)
    (t t' : trace) (l : list str) :
  for_each g (r :: rs) t = (t', Done l) ->
  exists x xs t1,
    g r t = (t1, Done x) /\ for_each g rs t1 = (t', Done xs) /\ l = x :: xs.
Proof.
  rewrite for_each_cons. destruct (g r t) as [t1 [x| | |]]; try discriminate.
  destruct (for_each g rs t1) as [t2 [xs| | |]] eqn:E; try discriminate.
  intros H. injection H as <- <-. exists x, xs, t1. auto.
Qed.

Lemma for_each_length {A : Type} (g : A -> run str) (rs : list A) :
  forall t t' l, for_each g rs t = (t', Done l) -> length l = length rs.
Proof.
  induction rs as [|r rs IH]; intros t t' l H.
  - injection H as <- <-. reflexivity.
  - apply for_each_cons_inv in H. destruct H as [x [xs [t1 [_ [H ->]]]]].
    cbn [length]. f_equal. exact (IH _ _ _ H).
Qed.

Lemma for_each_Forall {A : Type} (g : A -> run str) (P : str -> Prop) :
  (forall r t t' s, g r t = (t', Done s) -> P s) ->
  forall rs t t' l, for_each g rs t = (t', Done l) -> Forall P l.
Proof.
  intros HP rs. induction rs as [|r rs IH]; intros t t' l H.
  - injection H as <- <-. constructor.
  - apply for_each_cons_inv in H. destruct H as [x [xs [t1 [Hx [H ->]]]]].
    constructor; [exact (HP _ _ _ _ Hx)|exact (IH _ _ _ H)].
Qed.

Lemma for_each_total {A : Type} (g : A -> run str) :
  (forall r t, exists t' s, g r t = (t', Done s)) ->
  forall rs t, exists t' l, for_each g rs t = (t', Done l).
Proof.
  intros HT rs. induction rs as [|r rs IH]; intros t.
  - exists t, []. reflexivity.
  - rewrite for_each_cons. destruct (HT r t) as [t1 [x ->]].
    destruct (IH t1) as [t2 [xs ->]]. exists t2, (x :: xs). reflexivity.
Qed.

Lemma continue_with_nil {A : Type} (g : A -> run str) (rs : list A) (t : trace) :
  continue_with g rs [] t = for_each g rs t.
Proof.
  unfold continue_with. destruct (for_each g rs t) as [t' [xs| | |]]; reflexivity.
Qed.

Lemma continue_with_end {A : Type} (g : A -> run str) (chapters : list str)
    (t : trace) :
  continue_with g [] chapters t = (t, Done chapters).
Proof.
  unfold continue_with. cbn [for_each ret]. rewrite app_nil_r. reflexivity.
Qed.

Lemma continue_with_cons {A : Type} (g : A -> run str) (r : A) (rs : list A)
    (chapters : list str) (t : trace) :
  continue_with g (r :: rs) chapters t
  = match g r t with
    | (t1, Done x) => continue_with g rs (chapters ++ [x]) t1
    | (t1, Raised) => (t1, Raised)
    | (t1, Stopped) => (t1, Stopped)
    | (t1, Out_of_fuel) => (t1, Out_of_fuel)
    end.
Proof.
  unfold continue_with. rewrite for_each_cons.
  destruct (g r t) as [t1 [x| | |]]; try reflexivity.
  destruct (for_each g rs t1) as [t2 [xs| | |]]; try reflexivity.
  rewrite <- app_assoc. reflexivity.
Qed.

Lemma chapters_loop_continue (fuel : nat) (net : network) (f : form)
    (conclusion : bool) (numbers : list nat) :
  forall (chapters : list str) (t : trace),
    (chapters' <- chapters_loop fuel net f numbers chapters ;;
     if conclusion then
       conclusion_content <-
         generate_chapter net (topic f) (audience f) 0
           (lower (selected_language f)) (table_of_contents f)
           (specific_instructions f) false true ;;
       ret (chapters' ++ [conclusion_content])
     else ret chapters') t
    = continue_with (generate_section fuel net f)
        (map Chapter numbers ++ (if conclusion then [Conclusion] else []))
        chapters t.
Proof.
  induction numbers as [|i rest IH]; intros chapters t.
  - cbn [chapters_loop map app]. rewrite bind_eq. cbn [ret].
    destruct conclusion.
    + rewrite continue_with_cons. cbn [generate_section]. rewrite bind_eq.
      destruct (generate_chapter _ _ _ _ _ _ _ _ _ t) as [t1 [x| | |]];
        try reflexivity.
      rewrite continue_with_end. reflexivity.
    + rewrite continue_with_end. reflexivity.
  - cbn [chapters_loop map app]. rewrite continue_with_cons.
    cbn [generate_section]. rewrite !bind_eq.
    destruct (generate_chapter _ _ _ _ _ _ _ _ _ t) as [t1 [x| | |]];
      try reflexivity.
    rewrite !bind_eq.
    destruct (pad_loop fuel net f i x t1) as [t2 [y| | |]]; try reflexivity.
    rewrite <- IH. rewrite bind_eq. reflexivity.
Qed.

Lemma old_chapters_loop_continue (net : network) (f : form)
    (conclusion : bool) (numbers : list nat) :
  forall (chapters : list str) (t : trace),
    (chapters' <- Old.chapters_loop net f numbers chapters ;;
     if conclusion then
       conclusion_content <-
         Old.generate_chapter net (topic f) (audience f) 0
           (lower (selected_language f)) (table_of_contents f)
           (specific_instructions f) false true ;;
       ret (chapters' ++ [conclusion_content])
     else ret chapters') t
    = continue_with (old_generate_section net f)
        (map Chapter numbers ++ (if conclusion then [Conclusion] else []))
        chapters t.
Proof.
  induction numbers as [|i rest IH]; intros chapters t.
  - cbn [Old.chapters_loop map app]. rewrite bind_eq. cbn [ret].
    destruct conclusion.
    + rewrite continue_with_cons. cbn [old_generate_section]. rewrite bind_eq.
      destruct (Old.generate_chapter _ _ _ _ _ _ _ _ _ t) as [t1 [x| | |]];
        try reflexivity.
      rewrite continue_with_end. reflexivity.
    + rewrite continue_with_end. reflexivity.
  - cbn [Old.chapters_loop map app]. rewrite continue_with_cons.
    cbn [old_generate_section]. rewrite !bind_eq.
    destruct (Old.generate_chapter _ _ _ _ _ _ _ _ _ t) as [t1 [x| | |]];
      try reflexivity.
    rewrite <- IH. rewrite bind_eq. reflexivity.
Qed.

Lemma generate_book_for_each (fuel : nat) (net : network) (f : form) (t : trace) :
  topic f <> [] -> audience f <> [] ->
  generate_book fuel net f t
  = for_each (generate_section fuel net f)
      (section_order (include_intro f) (num_chapters f) (include_conclusion f)) t.
Proof.
  intros Ht Ha. unfold generate_book, section_order.
  rewrite (nonempty_true _ Ht), (nonempty_true _ Ha). cbn [negb orb].
  rewrite bind_eq. destruct (include_intro f).
  - cbn [app]. rewrite <- continue_with_nil, continue_with_cons.
    cbn [generate_section]. rewrite bind_eq.
    destruct (generate_chapter _ _ _ _ _ _ _ _ _ t) as [t1 [x| | |]];
      try reflexivity.
    cbn [ret app]. apply chapters_loop_continue.
  - cbn [ret app]. rewrite <- continue_with_nil. apply chapters_loop_continue.
Qed.

Lemma old_generate_book_for_each (net : network) (f : form) (t : trace) :
  topic f <> [] -> audience f <> [] ->
  Old.generate_book net f t
  = for_each (old_generate_section net f)
      (section_order (include_intro f) (num_chapters f) (include_conclusion f)) t.
Proof.
  intros Ht Ha. unfold Old.generate_book, section_order.
  rewrite (nonempty_true _ Ht), (nonempty_true _ Ha). cbn [negb orb].
  rewrite bind_eq. destruct (include_intro f).
  - cbn [app]. rewrite <- continue_with_nil, continue_with_cons.
    cbn [old_generate_section]. rewrite bind_eq.
    destruct (Old.generate_chapter _ _ _ _ _ _ _ _ _ t) as [t1 [x| | |]];
      try reflexivity.
    cbn [ret app]. apply old_chapters_loop_continue.
  - cbn [ret app]. rewrite <- continue_with_nil. apply old_chapters_loop_continue.
Qed.

Lemma section_order_length (intro conclusion : bool) (n : nat) :
  length (section_order intro n conclusion)
  = ((if intro then 1 else 0) + n + (if conclusion then 1 else 0))%nat.
Proof.
  unfold section_order. rewrite !length_app, length_map, length_seq.
  destruct intro, conclusion; cbn [length]; lia.
Qed.

Lemma old_generate_section_total (net : network) (f : form) :
  (forall k, exists s, fetched_content (net k) = JStr s) ->
  forall r t, exists t' s, old_generate_section net f r t = (t', Done s).
Proof.
  intros H r t. destruct (H (length t)) as [s Hs].
  destruct r; cbn [old_generate_section]; rewrite old_generate_chapter_eq, Hs;
    cbn [on_str]; eexists; eexists; reflexivity.
Qed.

Lemma pad_loop_total (net : network) (f : form) (i : nat) :
  (forall k, exists s, answer net k = Some s /\ (1 <= word_count s)%nat) ->
  forall fuel content t,
    (min_words - word_count content <= fuel)%nat ->
    exists t' r, pad_loop fuel net f i content t = (t', Done r).
Proof.
  intros H fuel. induction fuel as [|fuel IH]; intros content t HF;
    rewrite pad_loop_eq;
    destruct (word_count content <? min_words)%nat eqn:E;
    try (eexists; eexists; reflexivity).
  - apply Nat.ltb_lt in E. lia.
  - apply Nat.ltb_lt in E. destruct (H (length t)) as [s [Hs Hw]]. rewrite Hs.
    apply IH. rewrite word_count_append. lia.
Qed.

Lemma generate_section_total (fuel : nat) (net : network) (f : form) :
  (forall k, exists s, answer net k = Some s /\ (1 <= word_count s)%nat) ->
  (min_words <= fuel)%nat ->
  forall r t, exists t' s, generate_section fuel net f r t = (t', Done s).
Proof.
  intros H HF r t. destruct (H (length t)) as [s [Hs Hw]].
  destruct r as [|i|].
  - cbn [generate_section]. rewrite generate_chapter_eq, Hs.
    eexists; eexists; reflexivity.
  - rewrite generate_section_chapter_eq, Hs. apply pad_loop_total; [exact H|lia].
  - cbn [generate_section]. rewrite generate_chapter_eq, Hs.
    eexists; eexists; reflexivity.
Qed.

(** C5: the handler generates the sections of the roles Intro (if
    included), Chapter 1..N, Conclusion (if included), one after the other
    in this order, and stores them in this order; the list has one element
    per role, N+2 with both toggles on; a run finishes when every answer is
    a string (and, with the floor, has a word). *)
Theorem sections_in_order (fuel : nat) (net : network) (f : form) (t : trace) :
  topic f <> [] -> audience f <> [] ->
  let order :=
    section_order (include_intro f) (num_chapters f) (include_conclusion f) in
  generate_book fuel net f t = for_each (generate_section fuel net f) order t
  /\ Old.generate_book net f t = for_each (old_generate_section net f) order t
  /\ (forall t' chapters,
        generate_book fuel net f t = (t', Done chapters) ->
        length chapters = length order)
  /\ (forall t' chapters,
        Old.generate_book net f t = (t', Done chapters) ->
        length chapters = length order)
  /\ length order
     = ((if include_intro f then 1 else 0) + num_chapters f
        + (if include_conclusion f then 1 else 0))%nat
  /\ section_order true 3 true = [Intro; Chapter 1; Chapter 2; Chapter 3; Conclusion]
  /\ (forall n c, section_order false n c = tl (section_order true n c))
  /\ (forall n i, section_order i n false
                  = removelast (section_order i n true))
  /\ ((forall k, exists s, fetched_content (net k) = JStr s) ->
      exists t' chapters, Old.generate_book net f t = (t', Done chapters))
  /\ ((forall k, exists s, answer net k = Some s /\ (1 <= word_count s)%nat) ->
      (min_words <= fuel)%nat ->
      exists t' chapters, generate_book fuel net f t = (t', Done chapters)).
Proof.
  intros Ht Ha order.
  pose proof (generate_book_for_each fuel net f t Ht Ha) as E1.
  pose proof (old_generate_book_for_each net f t Ht Ha) as E2.
  fold order in E1, E2.
  split; [exact E1|]. split; [exact E2|]. split; [|split; [|split]].
  - intros t' chapters H. rewrite E1 in H. exact (for_each_length _ _ _ _ _ H).
  - intros t' chapters H. rewrite E2 in H. exact (for_each_length _ _ _ _ _ H).
  - apply section_order_length.
  - split; [reflexivity|]. split; [reflexivity|]. split; [|split].
    + intros n i. unfold section_order. rewrite !app_assoc.
      rewrite removelast_last, app_nil_r. reflexivity.
    + intros H. rewrite E2. apply for_each_total. apply old_generate_section_total.
      exact H.
    + intros H HF. rewrite E1. apply for_each_total.
      apply generate_section_total; assumption.
Qed.

Lemma sections_in_order_witness :
  exists t' chapters,
    Old.generate_book (fun _ => reply (u8 "Text."))
      (sample_form 3 true true "English") [] = (t', Done chapters)
    /\ length chapters = 5%nat.
Proof.
  destruct (sections_in_order O (fun _ => reply (u8 "Text."))
              (sample_form 3 true true "English") [])
    as [_ [_ [_ [L [_ [_ [_ [_ [T _]]]]]]]]].
  - discriminate.
  - discriminate.
  - destruct T as [t' [chapters H]].
    + intros k. exists (u8 "Text."). reflexivity.
    + exists t', chapters. split; [exact H|]. exact (L _ _ H).
Defined.

(** ** Whitespace at the ends of a section *)

Lemma lstrip_start (s : str) : starts_with_space (lstrip s) = false.
Proof.
  induction s as [|c s IH]; simpl.
  - reflexivity.
  - destruct (isspace c) eqn:E; [exact IH|]. simpl. exact E.
Qed.

Lemma rstrip_start (s : str) :
  starts_with_space s = false -> starts_with_space (rstrip s) = false.
Proof.
  destruct s as [|c s]; simpl; intros H.
  - reflexivity.
  - destruct (rstrip s); [rewrite H|]; simpl; auto.
Qed.

Lemma ends_with_space_last (p : str) (c : char) :
  ends_with_space (p ++ [c]) = isspace c.
Proof.
  unfold ends_with_space. rewrite rev_app_distr. reflexivity.
Qed.

Lemma rstrip_end (s : str) :
  rstrip s = [] \/ exists p c, rstrip s = p ++ [c] /\ isspace c = false.
Proof.
  induction s as [|x s IH]; simpl.
  - left. reflexivity.
  - destruct IH as [->|[p [c [-> Hc]]]].
    + destruct (isspace x) eqn:E.
      * left. reflexivity.
      * right. exists [], x. split; [reflexivity|exact E].
    + right. exists (x :: p), c. split; [|exact Hc].
      destruct p; reflexivity.
Qed.

Lemma rstrip_ends (s : str) : ends_with_space (rstrip s) = false.
Proof.
  destruct (rstrip_end s) as [->|[p [c [-> Hc]]]].
  - reflexivity.
  - rewrite ends_with_space_last. exact Hc.
Qed.

Lemma strip_trimmed (s : str) : trimmed (strip s).
Proof.
  unfold trimmed, strip. split.
  - apply rstrip_start, lstrip_start.
  - apply rstrip_ends.
Qed.

Lemma normalize_trimmed (s : str) : trimmed (normalize s).
Proof. apply strip_trimmed. Qed.

Lemma old_normalize_trimmed (s : str) : trimmed (Old.normalize s).
Proof. apply strip_trimmed. Qed.

Lemma starts_with_space_app (a b : str) :
  a <> [] -> starts_with_space (a ++ b) = starts_with_space a.
Proof. destruct a; [contradiction|reflexivity]. Qed.

Lemma ends_with_space_app (a b : str) :
  b <> [] -> ends_with_space (a ++ b) = ends_with_space b.
Proof.
  intros H. unfold ends_with_space. rewrite rev_app_distr.
  apply starts_with_space_app. intros E. apply H.
  rewrite <- (rev_involutive b), E. reflexivity.
Qed.

Lemma ends_with_space_append (a b : str) :
  b <> [] -> ends_with_space (a ++ [LF; LF] ++ b) = ends_with_space b.
Proof.
  intros H. rewrite (app_assoc a [LF; LF] b). apply ends_with_space_app. exact H.
Qed.

Lemma trimmed_append (a b : str) :
  trimmed a -> trimmed b -> a <> [] -> b <> [] ->
  trimmed (a ++ [LF; LF] ++ b).
Proof.
  intros [A1 A2] [B1 B2] Na Nb. split.
  - rewrite starts_with_space_app by exact Na. exact A1.
  - rewrite ends_with_space_append by exact Nb. exact B2.
Qed.

Lemma answer_trimmed (net : network) (k : nat) (s : str) :
  answer net k = Some s -> trimmed s.
Proof.
  unfold answer, on_str. destruct (fetched_content (net k)); try discriminate.
  intros H. injection H as <-. apply normalize_trimmed.
Qed.

Lemma word_count_nil : word_count [] = O.
Proof. reflexivity. Qed.

(** The loop keeps the start of a text that is not empty, and ends on an
    addition that has a word. *)
Lemma pad_loop_ends (net : network) (f : form) (i : nat) (fuel : nat) :
  forall content t t' r,
    pad_loop fuel net f i content t = (t', Done r) ->
    (ends_with_space content = false \/ (word_count content < min_words)%nat ->
     ends_with_space r = false)
    /\ (content <> [] -> starts_with_space r = starts_with_space content).
Proof.
  induction fuel as [|fuel IH]; intros content t t' r H;
    rewrite pad_loop_eq in H;
    destruct (word_count content <? min_words)%nat eqn:E;
    try discriminate.
  - injection H as <- <-. apply Nat.ltb_ge in E. split; [|reflexivity].
    intros [A|W]; [exact A|lia].
  - destruct (answer net (length t)) as [a|] eqn:A; [|discriminate].
    pose proof (answer_trimmed _ _ _ A) as [_ Ta].
    apply IH in H. destruct H as [H1 H2]. apply Nat.ltb_lt in E. split.
    + intros _. apply H1. destruct a as [|c a].
      * right. rewrite word_count_append, word_count_nil. lia.
      * left. rewrite ends_with_space_append by discriminate. exact Ta.
    + intros N. rewrite H2 by (destruct content; discriminate).
      apply starts_with_space_app. exact N.
  - injection H as <- <-. apply Nat.ltb_ge in E. split; [|reflexivity].
    intros [A|W]; [exact A|lia].
Qed.

Lemma generate_chapter_trimmed (net : network) (tp au lang toc ins : str)
    (n : nat) (i1 i2 : bool) (t t' : trace) (s : str) :
  generate_chapter net tp au n lang toc ins i1 i2 t = (t', Done s) -> trimmed s.
Proof.
  rewrite generate_chapter_eq. destruct (answer net (length t)) as [a|] eqn:A;
    [|discriminate].
  intros H. injection H as _ <-. exact (answer_trimmed _ _ _ A).
Qed.

Lemma old_generate_chapter_trimmed (net : network) (tp au lang toc ins : str)
    (n : nat) (i1 i2 : bool) (t t' : trace) (s : str) :
  Old.generate_chapter net tp au n lang toc ins i1 i2 t = (t', Done s) -> trimmed s.
Proof.
  rewrite old_generate_chapter_eq.
  destruct (fetched_content (net (length t))); try discriminate.
  cbn [on_str]. intros H. injection H as _ <-. apply old_normalize_trimmed.
Qed.

Lemma generate_section_ends (fuel : nat) (net : network) (f : form) (r : role)
    (t t' : trace) (s : str) :
  generate_section fuel net f r t = (t', Done s) ->
  ends_with_space s = false
  /\ (answer net (length t) <> Some [] -> starts_with_space s = false).
Proof.
  destruct r as [|i|].
  - cbn [generate_section]. intros H.
    apply generate_chapter_trimmed in H. destruct H. auto.
  - rewrite generate_section_chapter_eq.
    destruct (answer net (length t)) as [first|] eqn:A; [|discriminate].
    intros H. pose proof (answer_trimmed _ _ _ A) as [T1 T2].
    apply pad_loop_ends in H. destruct H as [H1 H2]. split.
    + apply H1. left. exact T2.
    + intros N. rewrite H2; [exact T1|]. intros ->. apply N. reflexivity.
  - cbn [generate_section]. intros H.
    apply generate_chapter_trimmed in H. destruct H. auto.
Qed.

Lemma old_generate_section_trimmed (net : network) (f : form) (r : role)
    (t t' : trace) (s : str) :
  old_generate_section net f r t = (t', Done s) -> trimmed s.
Proof.
  destruct r; cbn [old_generate_section]; apply old_generate_chapter_trimmed.
Qed.

Lemma generate_book_stops (fuel : nat) (net : network) (f : form) (t : trace) :
  topic f = [] \/ audience f = [] ->
  generate_book fuel net f t = (t, Stopped)
  /\ Old.generate_book net f t = (t, Stopped).
Proof.
  intros H. unfold generate_book, Old.generate_book.
  replace (negb (nonempty (topic f)) || negb (nonempty (audience f))) with true.
  - split; reflexivity.
  - destruct H as [-> | ->]; [reflexivity|].
    destruct (topic f); reflexivity.
Qed.

Lemma empty_or_not (s : str) : s = [] \/ s <> [].
Proof. destruct s; [left; reflexivity|right; discriminate]. Qed.

(** C9, as amended: what [generate_chapter] returns has no whitespace at
    either end; appending after a blank line keeps that when neither part
    is empty; a section stored by the handler with the floor never ends in
    whitespace, and starts with none unless the first answer for it
    normalised to the empty text; without the floor every stored section is
    trimmed. *)
Theorem sections_whitespace (fuel : nat) (net : network) (f : form) :
  (forall tp au n lang toc ins i1 i2 t t' s,
     generate_chapter net tp au n lang toc ins i1 i2 t = (t', Done s) ->
     trimmed s)
  /\ (forall tp au n lang toc ins i1 i2 t t' s,
        Old.generate_chapter net tp au n lang toc ins i1 i2 t = (t', Done s) ->
        trimmed s)
  /\ (forall a b,
        trimmed a -> trimmed b -> a <> [] -> b <> [] ->
        trimmed (a ++ [LF; LF] ++ b))
  /\ (forall r t t' s,
        generate_section fuel net f r t = (t', Done s) ->
        ends_with_space s = false
        /\ (answer net (length t) <> Some [] -> starts_with_space s = false))
  /\ (forall t t' chapters,
        generate_book fuel net f t = (t', Done chapters) ->
        Forall (fun s => ends_with_space s = false) chapters)
  /\ (forall t t' chapters,
        Old.generate_book net f t = (t', Done chapters) ->
        Forall trimmed chapters).
Proof.
  split; [intros; eapply generate_chapter_trimmed; eassumption|].
  split; [intros; eapply old_generate_chapter_trimmed; eassumption|].
  split; [apply trimmed_append|].
  split; [apply generate_section_ends|].
  split.
  - intros t t' chapters H.
    destruct (empty_or_not (topic f)) as [Et|Nt];
      [destruct (generate_book_stops fuel net f t (or_introl Et)) as [S _];
       rewrite S in H; discriminate|].
    destruct (empty_or_not (audience f)) as [Ea|Na];
      [destruct (generate_book_stops fuel net f t (or_intror Ea)) as [S _];
       rewrite S in H; discriminate|].
    rewrite generate_book_for_each in H by assumption.
    revert H. apply for_each_Forall. intros r t0 t1 s Hs.
    apply generate_section_ends in Hs. apply Hs.
  - intros t t' chapters H.
    destruct (empty_or_not (topic f)) as [Et|Nt];
      [destruct (generate_book_stops fuel net f t (or_introl Et)) as [_ S];
       rewrite S in H; discriminate|].
    destruct (empty_or_not (audience f)) as [Ea|Na];
      [destruct (generate_book_stops fuel net f t (or_intror Ea)) as [_ S];
       rewrite S in H; discriminate|].
    rewrite old_generate_book_for_each in H by assumption.
    revert H. apply for_each_Forall. intros r t0 t1 s Hs.
    exact (old_generate_section_trimmed _ _ _ _ _ _ Hs).
Qed.

Lemma sections_whitespace_witness :
  trimmed (u8 "Short." ++ [LF; LF] ++ u8 "More.")
  /\ Forall (fun s => ends_with_space s = false)
       [u8 "Short." ++ [LF; LF] ++ words_text 2500].
Proof.
  destruct (sections_whitespace 1 net_short_then_long
              (sample_form 1 false false "English"))
    as [_ [_ [H3 [_ [H5 _]]]]].
  split.
  - apply H3.
    + split; reflexivity.
    + split; reflexivity.
    + discriminate.
    + discriminate.
  - apply (H5 [] (repeat (chapter_prompt (sample_form 1 false false "English") 1) 2)).
    vm_compute. reflexivity.
Defined.

(** C9, as stated: a chapter whose first answer normalises to the empty
    text is stored with two line feeds at its start; and appending to a
    trimmed text an empty one leaves it ending in whitespace. *)
Lemma section_with_leading_whitespace :
  snd (generate_book 1 net_aside_then_long (sample_form 1 false false "English") [])
  = Done [[LF; LF] ++ words_text 2500]
  /\ starts_with_space ([LF; LF] ++ words_text 2500) = true
  /\ trimmed (u8 "Short.") /\ trimmed []
  /\ ends_with_space (u8 "Short." ++ [LF; LF] ++ []) = true.
Proof.
  split; [vm_compute; reflexivity|].
  repeat split; reflexivity.
Qed.

(** ** Normaliser: what a second pass finds *)

Lemma sub_go_no_match (m : matcher) (repl s : str) :
  has_match m s = false -> sub_go m repl O s = s.
Proof.
  induction s as [|c s IH]; intros H.
  - reflexivity.
  - cbn [has_match] in H. cbn [sub_go].
    destruct (m (c :: s)) as [[|n]|]; try discriminate;
      rewrite IH by exact H; reflexivity.
Qed.

Lemma remove_patterns_no_match (ps : list matcher) (s : str) :
  existsb (fun m => has_match m s) ps = false -> remove_patterns ps s = s.
Proof.
  unfold remove_patterns. induction ps as [|m ps IH]; cbn [existsb fold_left];
    intros H.
  - reflexivity.
  - apply orb_false_iff in H. destruct H as [H1 H2].
    unfold re_sub. rewrite sub_go_no_match by exact H1. apply IH. exact H2.
Qed.

Lemma sub_go_Forall (P : char -> Prop) (m : matcher) (repl : str) :
  Forall P repl ->
  forall s k, Forall P s -> Forall P (sub_go m repl k s).
Proof.
  intros Hr s. induction s as [|c s IH]; intros k Hs.
  - constructor.
  - inversion Hs as [|? ? Hc Hs']; subst. cbn [sub_go]. destruct k as [|k].
    + destruct (m (c :: s)) as [[|n]|].
      * constructor; auto.
      * apply Forall_app. split; auto.
      * constructor; auto.
    + auto.
Qed.

Lemma remove_patterns_Forall (P : char -> Prop) (ps : list matcher) :
  forall s, Forall P s -> Forall P (remove_patterns ps s).
Proof.
  unfold remove_patterns. induction ps as [|m ps IH]; cbn [fold_left]; intros s H.
  - exact H.
  - apply IH. apply sub_go_Forall; [constructor|exact H].
Qed.

Lemma lstrip_suffix (s : str) : exists w, s = w ++ lstrip s.
Proof.
  induction s as [|c s [w IH]]; cbn [lstrip].
  - exists []. reflexivity.
  - destruct (isspace c).
    + exists (c :: w). cbn [app]. f_equal. exact IH.
    + exists []. reflexivity.
Qed.

Lemma rstrip_prefix (s : str) : exists w, s = rstrip s ++ w.
Proof.
  induction s as [|c s [w IH]]; cbn [rstrip].
  - exists []. reflexivity.
  - destruct (rstrip s) as [|d r].
    + destruct (isspace c).
      * exists (c :: s). reflexivity.
      * exists s. reflexivity.
    + exists w. cbn [app] in *. f_equal. exact IH.
Qed.

Lemma strip_Forall (P : char -> Prop) (s : str) : Forall P s -> Forall P (strip s).
Proof.
  intros H. unfold strip.
  destruct (lstrip_suffix s) as [w1 E1]. rewrite E1 in H.
  apply Forall_app in H. destruct H as [_ H].
  destruct (rstrip_prefix (lstrip s)) as [w2 E2]. rewrite E2 in H.
  apply Forall_app in H. apply H.
Qed.

Lemma filter_Forall (f : char -> bool) (s : str) :
  Forall (fun c => f c = true) (filter f s).
Proof.
  apply Forall_forall. intros c H. apply filter_In in H. apply H.
Qed.

Lemma filter_all (f : char -> bool) (s : str) :
  Forall (fun c => f c = true) s -> filter f s = s.
Proof.
  intros H. induction H as [|c s Hc _ IH]; cbn [filter].
  - reflexivity.
  - rewrite Hc, IH. reflexivity.
Qed.

Lemma lstrip_id (s : str) : starts_with_space s = false -> lstrip s = s.
Proof.
  destruct s as [|c s]; cbn [lstrip starts_with_space]; intros H.
  - reflexivity.
  - rewrite H. reflexivity.
Qed.

Lemma rstrip_snoc (p : str) (c : char) :
  isspace c = false -> rstrip (p ++ [c]) = p ++ [c].
Proof.
  intros H. induction p as [|x p IH]; cbn [app rstrip].
  - rewrite H. reflexivity.
  - rewrite IH. destruct (p ++ [c]) eqn:E; [|reflexivity].
    destruct p; discriminate.
Qed.

Lemma rstrip_id (s : str) : ends_with_space s = false -> rstrip s = s.
Proof.
  unfold ends_with_space. intros H.
  rewrite <- (rev_involutive s) in *. destruct (rev s) as [|c l].
  - reflexivity.
  - rewrite rev_involutive in H. cbn [starts_with_space] in H.
    cbn [rev]. apply rstrip_snoc. exact H.
Qed.

Lemma strip_id (s : str) : trimmed s -> strip s = s.
Proof.
  intros [H1 H2]. unfold strip. rewrite lstrip_id by exact H1.
  apply rstrip_id. exact H2.
Qed.

Lemma has_match_suffix (m : matcher) (w y : str) :
  has_match m (w ++ y) = false -> has_match m y = false.
Proof.
  induction w as [|c w IH]; cbn [app has_match]; intros H.
  - exact H.
  - destruct (m (c :: w ++ y)) as [[|n]|]; try discriminate; auto.
Qed.

Lemma has_match_prefix (m : matcher) :
  (forall x w n, m x = Some (S n) -> exists n', m (x ++ w) = Some (S n')) ->
  forall x w, has_match m (x ++ w) = false -> has_match m x = false.
Proof.
  intros Hm x w. induction x as [|c x IH]; cbn [app has_match]; intros H.
  - reflexivity.
  - destruct (m (c :: x)) as [[|n]|] eqn:E.
    + destruct (m (c :: x ++ w)) as [[|n']|]; try discriminate; auto.
    + destruct (Hm (c :: x) w n E) as [n' E']. cbn [app] in E'.
      rewrite E' in H. discriminate.
    + destruct (m (c :: x ++ w)) as [[|n']|]; try discriminate; auto.
Qed.

Lemma has_match_strip (m : matcher) (s : str) :
  (forall x w n, m x = Some (S n) -> exists n', m (x ++ w) = Some (S n')) ->
  has_match m s = false -> has_match m (strip s) = false.
Proof.
  intros Hm H. unfold strip.
  destruct (lstrip_suffix s) as [w1 E1]. rewrite E1 in H.
  apply has_match_suffix in H.
  destruct (rstrip_prefix (lstrip s)) as [w2 E2]. rewrite E2 in H.
  exact (has_match_prefix m Hm _ _ H).
Qed.

(** *** Parentheticals *)

Lemma closes_nil : closes [] = false.
Proof. reflexivity. Qed.

Lemma closes_cons (c : char) (s : str) :
  closes (c :: s)
  = if c =? LF then false else if c =? RPAREN then true else closes s.
Proof.
  unfold closes. cbn [first_line]. destruct (c =? LF); [reflexivity|].
  cbn [index_of]. destruct (c =? RPAREN); [reflexivity|].
  destruct (index_of RPAREN (first_line s)); reflexivity.
Qed.

Lemma m_parenthetical_spec (c : char) (s : str) :
  match m_parenthetical (c :: s) with
  | Some (S _) => c = LPAREN /\ closes s = true
  | Some O => False
  | None => (c =? LPAREN) && closes s = false
  end.
Proof.
  unfold m_parenthetical, closes. destruct (N.eqb_spec c LPAREN) as [->|N];
    destruct (index_of RPAREN (first_line s)); cbn [andb]; auto.
Qed.

Lemma has_match_parenthetical_cons (c : char) (s : str) :
  has_match m_parenthetical (c :: s)
  = ((c =? LPAREN) && closes s) || has_match m_parenthetical s.
Proof.
  cbn [has_match]. pose proof (m_parenthetical_spec c s) as M.
  destruct (m_parenthetical (c :: s)) as [[|n]|].
  - contradiction.
  - destruct M as [-> ->]. reflexivity.
  - rewrite M. reflexivity.
Qed.

Lemma closes_lparen (s : str) : closes (LPAREN :: s) = closes s.
Proof. rewrite closes_cons. reflexivity. Qed.

(** A substitution that keeps the line structure cannot bring a closing
    parenthesis onto a line that had none. *)
Lemma sub_parenthetical_closes (s : str) :
  forall k, closes (sub_go m_parenthetical [] k s) = true ->
            closes (skipn k s) = true.
Proof.
  induction s as [|c s IH]; intros k H.
  - cbn [sub_go] in H. rewrite closes_nil in H. discriminate.
  - destruct k as [|k]; cbn [sub_go skipn] in *.
    + pose proof (m_parenthetical_spec c s) as M.
      destruct (m_parenthetical (c :: s)) as [[|n]|].
      * contradiction.
      * destruct M as [-> M]. rewrite closes_lparen. exact M.
      * rewrite closes_cons in *. destruct (c =? LF); [discriminate|].
        destruct (c =? RPAREN); [reflexivity|]. exact (IH O H).
    + exact (IH k H).
Qed.

Lemma sub_parenthetical_clean (s : str) :
  forall k, has_match m_parenthetical (sub_go m_parenthetical [] k s) = false.
Proof.
  induction s as [|c s IH]; intros k.
  - reflexivity.
  - destruct k as [|k]; cbn [sub_go].
    + pose proof (m_parenthetical_spec c s) as M.
      destruct (m_parenthetical (c :: s)) as [[|n]|].
      * contradiction.
      * apply IH.
      * rewrite has_match_parenthetical_cons, IH, orb_false_r.
        destruct (closes (sub_go m_parenthetical [] 0 s)) eqn:E;
          [|apply andb_false_r].
        apply (sub_parenthetical_closes s O) in E. cbn [skipn] in E.
        rewrite E in M. rewrite andb_true_r in *. exact M.
    + apply IH.
Qed.

Lemma sub_linebreaks_closes (s : str) :
  forall k, closes (sub_go m_linebreaks [LF; LF] k s) = true ->
            closes (skipn k s) = true.
Proof.
  induction s as [|c s IH]; intros k H.
  - cbn [sub_go] in H. rewrite closes_nil in H. discriminate.
  - destruct k as [|k]; cbn [sub_go skipn] in *.
    + destruct (m_linebreaks (c :: s)) as [[|n]|].
      * rewrite closes_cons in *. destruct (c =? LF); [discriminate|].
        destruct (c =? RPAREN); [reflexivity|]. exact (IH O H).
      * cbn [app] in H. rewrite closes_cons in H. discriminate.
      * rewrite closes_cons in *. destruct (c =? LF); [discriminate|].
        destruct (c =? RPAREN); [reflexivity|]. exact (IH O H).
    + exact (IH k H).
Qed.

Lemma sub_linebreaks_keeps_clean (s : str) :
  has_match m_parenthetical s = false ->
  forall k, has_match m_parenthetical (sub_go m_linebreaks [LF; LF] k s) = false.
Proof.
  induction s as [|c s IH]; intros H k.
  - reflexivity.
  - rewrite has_match_parenthetical_cons in H. apply orb_false_iff in H.
    destruct H as [H1 H2]. specialize (IH H2).
    destruct k as [|k]; cbn [sub_go].
    + assert (K : has_match m_parenthetical
                    (c :: sub_go m_linebreaks [LF; LF] 0 s) = false).
      { rewrite has_match_parenthetical_cons, IH, orb_false_r.
        destruct (closes (sub_go m_linebreaks [LF; LF] 0 s)) eqn:E;
          [|apply andb_false_r].
        apply (sub_linebreaks_closes s O) in E. cbn [skipn] in E.
        rewrite E in H1. rewrite andb_true_r in *. exact H1. }
      destruct (m_linebreaks (c :: s)) as [[|n]|]; try exact K.
      cbn [app]. rewrite !has_match_parenthetical_cons, IH.
      reflexivity.
    + apply IH.
Qed.

Lemma index_of_first_line_app (a : char) (x w : str) (i : nat) :
  index_of a (first_line x) = Some i ->
  index_of a (first_line (x ++ w)) = Some i.
Proof.
  revert i. induction x as [|d x IH]; intros i; cbn [app first_line].
  - discriminate.
  - destruct (d =? LF); [discriminate|]. cbn [index_of].
    destruct (d =? a); [auto|].
    destruct (index_of a (first_line x)) as [j|]; [|discriminate].
    rewrite (IH j eq_refl). auto.
Qed.

Lemma m_parenthetical_stable (x w : str) (n : nat) :
  m_parenthetical x = Some (S n) ->
  exists n', m_parenthetical (x ++ w) = Some (S n').
Proof.
  destruct x as [|c x]; [discriminate|]. cbn [app]. unfold m_parenthetical.
  destruct (c =? LPAREN); [|discriminate].
  destruct (index_of RPAREN (first_line x)) as [i|] eqn:E; [|discriminate].
  intros _. rewrite (index_of_first_line_app _ _ w _ E). eauto.
Qed.

(** *** Line breaks *)

Lemma linefeeds_cons (c : char) (s : str) :
  linefeeds (c :: s) = if LF =? c then S (linefeeds s) else O.
Proof. reflexivity. Qed.

Lemma m_linebreaks_spec (s : str) :
  match m_linebreaks s with
  | Some (S n) => (3 <= linefeeds s)%nat /\ S n = linefeeds s
  | Some O => False
  | None => (linefeeds s < 3)%nat
  end.
Proof.
  unfold m_linebreaks. fold (linefeeds s).
  destruct (3 <=? linefeeds s)%nat eqn:E.
  - apply Nat.leb_le in E. destruct (linefeeds s); [lia|]. auto.
  - apply Nat.leb_gt in E. exact E.
Qed.

Lemma has_match_linebreaks_cons (c : char) (s : str) :
  has_match m_linebreaks (c :: s)
  = (3 <=? linefeeds (c :: s))%nat || has_match m_linebreaks s.
Proof.
  cbn [has_match]. pose proof (m_linebreaks_spec (c :: s)) as M.
  destruct (m_linebreaks (c :: s)) as [[|n]|].
  - contradiction.
  - destruct M as [M _]. apply Nat.leb_le in M. rewrite M. reflexivity.
  - apply Nat.leb_gt in M. rewrite M. reflexivity.
Qed.

Lemma linefeeds_skipn (s : str) : linefeeds (skipn (linefeeds s) s) = O.
Proof.
  induction s as [|c s IH].
  - reflexivity.
  - rewrite linefeeds_cons. destruct (LF =? c) eqn:E.
    + cbn [skipn]. exact IH.
    + cbn [skipn]. rewrite linefeeds_cons, E. reflexivity.
Qed.

(** After the substitution a run of line feeds has the length it had,
    capped at two. *)
Lemma sub_linebreaks_run (s : str) :
  forall k, linefeeds (sub_go m_linebreaks [LF; LF] k s)
            = Nat.min (linefeeds (skipn k s)) 2.
Proof.
  induction s as [|c s IH]; intros k.
  - destruct k; reflexivity.
  - destruct k as [|k]; cbn [sub_go skipn]; [|apply IH].
    pose proof (m_linebreaks_spec (c :: s)) as M.
    destruct (m_linebreaks (c :: s)) as [[|n]|].
    + contradiction.
    + destruct M as [M1 M2]. cbn [app]. rewrite !linefeeds_cons.
      change (LF =? LF) with true. rewrite IH.
      rewrite linefeeds_cons in M1, M2.
      destruct (LF =? c); [|lia].
      injection M2 as ->. rewrite linefeeds_skipn. lia.
    + rewrite !linefeeds_cons. rewrite linefeeds_cons in M.
      destruct (LF =? c); [|reflexivity].
      rewrite (IH O). cbn [skipn]. lia.
Qed.

Lemma sub_linebreaks_clean (s : str) :
  forall k, has_match m_linebreaks (sub_go m_linebreaks [LF; LF] k s) = false.
Proof.
  induction s as [|c s IH]; intros k.
  - reflexivity.
  - pose proof (sub_linebreaks_run (c :: s) O) as R.
    destruct k as [|k]; cbn [sub_go] in *; [|apply IH].
    pose proof (m_linebreaks_spec (c :: s)) as M.
    destruct (m_linebreaks (c :: s)) as [[|n]|].
    + contradiction.
    + cbn [app] in *. rewrite has_match_linebreaks_cons.
      apply orb_false_iff. split; [apply Nat.leb_gt; rewrite R; lia|].
      rewrite has_match_linebreaks_cons.
      apply orb_false_iff. split; [|apply IH].
      apply Nat.leb_gt.
      assert (E : linefeeds (LF :: LF :: sub_go m_linebreaks [LF; LF] n s)
                  = S (linefeeds (LF :: sub_go m_linebreaks [LF; LF] n s)))
        by reflexivity.
      lia.
    + rewrite has_match_linebreaks_cons.
      apply orb_false_iff. split; [apply Nat.leb_gt; rewrite R; lia|apply IH].
Qed.

Lemma linefeeds_app (x w : str) : (linefeeds x <= linefeeds (x ++ w))%nat.
Proof.
  induction x as [|c x IH]; cbn [app].
  - apply Nat.le_0_l.
  - rewrite !linefeeds_cons. destruct (LF =? c); lia.
Qed.

Lemma m_linebreaks_stable (x w : str) (n : nat) :
  m_linebreaks x = Some (S n) ->
  exists n', m_linebreaks (x ++ w) = Some (S n').
Proof.
  intros H. pose proof (m_linebreaks_spec x) as M. rewrite H in M.
  destruct M as [M _]. pose proof (linefeeds_app x w) as L.
  unfold m_linebreaks. fold (linefeeds (x ++ w)).
  assert (E : (3 <=? linefeeds (x ++ w))%nat = true) by (apply Nat.leb_le; lia).
  rewrite E. destruct (linefeeds (x ++ w)); [lia|]. eauto.
Qed.

(** *** The second pass *)

Lemma normalize_eq (x : str) :
  normalize x
  = strip (re_sub m_linebreaks [LF; LF]
             (re_sub m_parenthetical []
                (remove_patterns patterns
                   (strip (filter (fun c => negb (is_marker c)) x))))).
Proof. reflexivity. Qed.

Lemma normalize_no_marker (x : str) :
  Forall (fun c => negb (is_marker c) = true) (normalize x).
Proof.
  rewrite normalize_eq. apply strip_Forall. unfold re_sub.
  apply sub_go_Forall; [repeat constructor|].
  apply sub_go_Forall; [constructor|].
  apply remove_patterns_Forall. apply strip_Forall. apply filter_Forall.
Qed.

Lemma normalize_no_parenthetical (x : str) :
  has_match m_parenthetical (normalize x) = false.
Proof.
  rewrite normalize_eq. apply has_match_strip; [apply m_parenthetical_stable|].
  unfold re_sub. apply sub_linebreaks_keeps_clean. apply sub_parenthetical_clean.
Qed.

Lemma normalize_no_linebreaks (x : str) :
  has_match m_linebreaks (normalize x) = false.
Proof.
  rewrite normalize_eq. apply has_match_strip; [apply m_linebreaks_stable|].
  unfold re_sub. apply sub_linebreaks_clean.
Qed.

(** C1, as amended: what the normaliser returns has no markdown marker,
    no parenthetical span, no run of three line feeds and no whitespace at
    its ends; so a second pass can only remove a boilerplate phrase, and
    returns the text unchanged when no boilerplate pattern matches in
    it. *)
Theorem normalize_second_pass (x : str) :
  Forall (fun c => is_marker c = false) (normalize x)
  /\ has_match m_parenthetical (normalize x) = false
  /\ has_match m_linebreaks (normalize x) = false
  /\ trimmed (normalize x)
  /\ (has_boilerplate (normalize x) = false ->
      normalize (normalize x) = normalize x).
Proof.
  pose proof (normalize_no_marker x) as H1.
  pose proof (normalize_no_parenthetical x) as H2.
  pose proof (normalize_no_linebreaks x) as H3.
  pose proof (normalize_trimmed x) as H4.
  split; [|split; [exact H2|split; [exact H3|split; [exact H4|]]]].
  - eapply Forall_impl; [|exact H1]. intros c Hc. apply negb_true_iff. exact Hc.
  - intros H5. rewrite (normalize_eq (normalize x)).
    rewrite filter_all by exact H1. rewrite (strip_id _ H4).
    rewrite remove_patterns_no_match by exact H5.
    unfold re_sub. rewrite (sub_go_no_match m_parenthetical) by exact H2.
    rewrite (sub_go_no_match m_linebreaks) by exact H3. apply strip_id. exact H4.
Qed.

Lemma normalize_second_pass_witness :
  normalize (normalize (u8 "# Title (aside)" ++ [LF; LF; LF; LF] ++ u8 "Body *text*."))
  = normalize (u8 "# Title (aside)" ++ [LF; LF; LF; LF] ++ u8 "Body *text*.").
Proof.
  apply (normalize_second_pass
           (u8 "# Title (aside)" ++ [LF; LF; LF; LF] ++ u8 "Body *text*.")).
  vm_compute. reflexivity.
Defined.

(** C1, as stated: removing a parenthetical can put a boilerplate phrase
    together, which only a second pass removes; and the restructuring of
    lists doubles the line breaks at each pass, in both variants. *)
Lemma normalize_not_idempotent :
  normalize (u8 "Vamos a (x)explorar") = u8 "Vamos a explorar"
  /\ normalize (normalize (u8 "Vamos a (x)explorar")) = []
  /\ normalize_full [97; LF; 98] = [97; LF; LF; 98]
  /\ normalize_full (normalize_full [97; LF; 98]) = [97; LF; LF; LF; LF; 98]
  /\ Old.normalize [97; LF; 98] = [97; LF; LF; 98]
  /\ Old.normalize (Old.normalize [97; LF; 98]) = [97; LF; LF; LF; LF; 98].
Proof.
  repeat split; vm_compute; reflexivity.
Qed.

(** * Further properties *)

(** ** Deletions *)

Lemma deletion_refl (s : str) : deletion_of s s.
Proof.
  induction s; [apply deletion_nil|apply deletion_keep; assumption].
Qed.

Lemma deletion_nil_l (s : str) : deletion_of [] s.
Proof.
  induction s; [apply deletion_nil|apply deletion_drop; assumption].
Qed.

Lemma deletion_app (a a' b b' : str) :
  deletion_of a a' -> deletion_of b b' -> deletion_of (a ++ b) (a' ++ b').
Proof.
  intros Ha Hb. induction Ha; cbn [app].
  - exact Hb.
  - apply deletion_drop. assumption.
  - apply deletion_keep. assumption.
Qed.

Lemma deletion_trans (a b c : str) :
  deletion_of a b -> deletion_of b c -> deletion_of a c.
Proof.
  intros Hab Hbc. revert a Hab.
  induction Hbc as [|x b c Hbc IH|x b c Hbc IH]; intros a Hab.
  - exact Hab.
  - constructor. apply IH. exact Hab.
  - inversion Hab as [|y a' b' Ha|y a' b' Ha]; subst.
    + apply deletion_drop. apply IH. exact Ha.
    + apply deletion_keep. apply IH. exact Ha.
Qed.

Lemma deletion_length (a b : str) :
  deletion_of a b -> (length a <= length b)%nat.
Proof.
  intros H. induction H; cbn [length]; lia.
Qed.

Lemma deletion_incl (a b : str) : deletion_of a b -> incl a b.
Proof.
  intros H. induction H as [|c a b H IH|c a b H IH].
  - apply incl_refl.
  - apply incl_tl. exact IH.
  - apply incl_cons; [left; reflexivity|apply incl_tl; exact IH].
Qed.

Lemma deletion_filter (f : char -> bool) (s : str) : deletion_of (filter f s) s.
Proof.
  induction s as [|c s IH]; cbn [filter].
  - constructor.
  - destruct (f c); [apply deletion_keep|apply deletion_drop]; exact IH.
Qed.

Lemma deletion_prefix (x w : str) : deletion_of x (x ++ w).
Proof.
  rewrite <- (app_nil_r x) at 1.
  apply deletion_app; [apply deletion_refl|apply deletion_nil_l].
Qed.

Lemma deletion_suffix (w y : str) : deletion_of y (w ++ y).
Proof.
  apply (deletion_app [] w); [apply deletion_nil_l|apply deletion_refl].
Qed.

Lemma deletion_strip (s : str) : deletion_of (strip s) s.
Proof.
  unfold strip. apply deletion_trans with (b := lstrip s).
  - destruct (rstrip_prefix (lstrip s)) as [w E].
    set (r := rstrip (lstrip s)) in *. clearbody r. rewrite E.
    apply deletion_prefix.
  - destruct (lstrip_suffix s) as [w E].
    set (r := lstrip s) in *. clearbody r. rewrite E.
    apply deletion_suffix.
Qed.

Lemma deletion_sub_go (m : matcher) (repl : str) :
  (forall s n, m s = Some (S n) -> deletion_of repl (firstn (S n) s)) ->
  forall s k, deletion_of (sub_go m repl k s) (skipn k s).
Proof.
  intros Hm s. induction s as [|c s IH]; intros k.
  - destruct k; apply deletion_nil.
  - destruct k as [|k]; cbn [sub_go skipn].
    + destruct (m (c :: s)) as [[|n]|] eqn:E.
      * apply deletion_keep. exact (IH O).
      * rewrite <- (firstn_skipn (S n) (c :: s)) at 1.
        apply deletion_app; [exact (Hm _ _ E)|]. cbn [skipn]. apply IH.
      * apply deletion_keep. exact (IH O).
    + apply IH.
Qed.

Lemma deletion_remove_patterns (ps : list matcher) :
  forall s, deletion_of (remove_patterns ps s) s.
Proof.
  unfold remove_patterns. induction ps as [|m ps IH]; cbn [fold_left]; intros s.
  - apply deletion_refl.
  - eapply deletion_trans; [apply IH|].
    apply (deletion_sub_go m [] (fun _ _ _ => deletion_nil_l _) s O).
Qed.

Lemma firstn_linefeeds (s : str) (k : nat) :
  (k <= linefeeds s)%nat -> firstn k s = repeat LF k.
Proof.
  revert k. induction s as [|c s IH]; intros k H.
  - cbn in H. replace k with O by lia. reflexivity.
  - destruct k as [|k]; [reflexivity|].
    rewrite linefeeds_cons in H. destruct (N.eqb_spec LF c) as [<-|N]; [|lia].
    cbn [firstn repeat]. f_equal. apply IH. lia.
Qed.

Lemma deletion_linebreaks (s : str) (n : nat) :
  m_linebreaks s = Some (S n) -> deletion_of [LF; LF] (firstn (S n) s).
Proof.
  intros H. pose proof (m_linebreaks_spec s) as M. rewrite H in M.
  destruct M as [M1 M2]. rewrite firstn_linefeeds by lia.
  destruct n as [|[|n]]; try lia. cbn [repeat].
  do 2 apply deletion_keep. apply deletion_nil_l.
Qed.

(** ** Normaliser *)

(** X1: [clean_markdown] leaves no marker and no whitespace at the ends,
    and applying it again changes nothing. *)
Theorem clean_markdown_idempotent (text : str) :
  Forall (fun c => is_marker c = false) (clean_markdown text)
  /\ trimmed (clean_markdown text)
  /\ clean_markdown (clean_markdown text) = clean_markdown text.
Proof.
  assert (H : Forall (fun c => negb (is_marker c) = true) (clean_markdown text))
    by (apply strip_Forall, filter_Forall).
  pose proof (strip_trimmed (filter (fun c => negb (is_marker c)) text)) as T.
  split; [|split].
  - eapply Forall_impl; [|exact H]. intros c. apply negb_true_iff.
  - exact T.
  - unfold clean_markdown at 1. rewrite filter_all by exact H.
    apply strip_id. exact T.
Qed.

(** X2: the normaliser of [app.py] only deletes: what it returns is the
    fetched text with some characters removed, in the same order; it never
    adds or replaces a character. *)
Theorem normalize_only_deletes (content : str) :
  deletion_of (normalize content) content
  /\ (length (normalize content) <= length content)%nat
  /\ incl (normalize content) content.
Proof.
  assert (H : deletion_of (normalize content) content).
  { rewrite normalize_eq.
    eapply deletion_trans; [apply deletion_strip|].
    eapply deletion_trans;
      [apply (deletion_sub_go m_linebreaks [LF; LF] deletion_linebreaks _ O)|].
    eapply deletion_trans;
      [apply (deletion_sub_go m_parenthetical []
                (fun _ _ _ => deletion_nil_l _) _ O)|].
    eapply deletion_trans; [apply deletion_remove_patterns|].
    eapply deletion_trans; [apply deletion_strip|apply deletion_filter]. }
  split; [exact H|]. split; [exact (deletion_length _ _ H)|exact (deletion_incl _ _ H)].
Qed.

(** ** Paragraphs of a section *)



Lemma replace_first_Forall (P : char -> Prop) (new old : char) (s : str) :
  P new -> Forall P s -> Forall P (replace_first old new s).
Proof.
  intros Hn H. induction H as [|c s Hc Hs IH]; cbn [replace_first].
  - constructor.
  - destruct (c =? old); constructor; assumption.
Qed.









Lemma join_cons (sep x y : str) (l : list str) :
  join sep (x :: y :: l) = x ++ sep ++ join sep (y :: l).
Proof. reflexivity. Qed.





(** ** Whole document *)

Lemma page_breaks_app (a b : list block) :
  page_breaks (a ++ b) = (page_breaks a + page_breaks b)%nat.
Proof.
  induction a as [|x a IH]; cbn [app page_breaks].
  - reflexivity.
  - destruct x; rewrite IH; reflexivity.
Qed.

Lemma page_breaks_body (ps : list str) (g : str -> str) :
  page_breaks (map (fun p => Body_text (g p)) ps) = O.
Proof.
  induction ps as [|p ps IH]; cbn [map page_breaks]; auto.
Qed.

Lemma last_app (a b : list block) (d : block) :
  b <> [] -> last (a ++ b) d = last b d.
Proof.
  intros N. induction a as [|x a IH]; cbn [app].
  - reflexivity.
  - cbn [last]. destruct (a ++ b) eqn:E; [|exact IH].
    apply app_eq_nil in E. destruct E. contradiction.
Qed.

Lemma last_cons (x : block) (l : list block) (d : block) :
  l <> [] -> last (x :: l) d = last l d.
Proof. destruct l; [contradiction|reflexivity]. Qed.

Lemma chapters_blocks_page_breaks (restructure : str -> str) (language : str)
    (chapters : list str) :
  forall i body,
    chapters_blocks restructure i chapters language = Some body ->
    page_breaks body = length chapters
    /\ (chapters <> [] -> last body (Heading 1 []) = Page_break).
Proof.
  induction chapters as [|chapter rest IH]; intros i body H.
  - injection H as <-. split; [reflexivity|]. intros N. contradiction.
  - cbn [chapters_blocks] in H. unfold chapter_blocks in H.
    rewrite chapter_title_label in H. cbn [and_then] in H.
    rewrite heading_label_nonempty in H. cbn [and_then] in H.
    destruct (chapters_blocks restructure (S i) rest language) as [there|] eqn:E;
      [|discriminate].
    cbn [and_then] in H. injection H as <-.
    destruct (IH _ _ E) as [P L]. split.
    + cbn [app page_breaks length]. rewrite !page_breaks_app, page_breaks_body, P.
      cbn [page_breaks]. lia.
    + intros _. destruct rest as [|next rest'].
      * injection E as <-. rewrite app_nil_r, app_comm_cons.
        apply last_last.
      * assert (N : there <> [])
          by (intros ->; cbn in P; discriminate).
        rewrite app_comm_cons, last_app by exact N. apply L. discriminate.
Qed.



(** X5: a document that is built starts with the formatted title, has one
    forced page break for the author name if there is one, one for the
    author profile if there is one and one after every section, the last
    section included; its page is 5.5 by 8.5 inches with margins of 0.8 inch
    and its footer carries the page-number field. *)
Theorem document_layout (chapters : list str)
    (title_text author_name author_bio language : str) (doc : document) :
  create_word_document chapters title_text author_name author_bio language
  = Some doc ->
  (exists formatted_title rest,
     format_title title_text language = Some formatted_title
     /\ blocks doc = Title_line formatted_title :: rest)
  /\ page_breaks (blocks doc)
     = ((if nonempty author_name then 1 else 0)
        + (if nonempty author_bio then 1 else 0) + length chapters)%nat
  /\ (chapters <> [] -> last (blocks doc) (Heading 1 []) = Page_break)
  /\ page_width doc = 5029200 /\ page_height doc = 7772400
  /\ margin doc = 731520 /\ footer_page_field doc = true.
Proof.
  unfold create_word_document, build_document. intros H.
  destruct (format_title title_text language) as [ft|]; [|discriminate].
  cbn [and_then] in H.
  destruct (chapters_blocks process_lists 1 chapters language) as [body|] eqn:E;
    [|discriminate].
  cbn [and_then] in H. injection H as <-.
  cbn [blocks page_width page_height margin footer_page_field].
  destruct (chapters_blocks_page_breaks _ _ _ _ _ E) as [P L].
  split; [eexists; eexists; split; reflexivity|].
  split; [|split; [|repeat split]].
  - destruct (nonempty author_name), (nonempty author_bio);
      cbn [app page_breaks]; rewrite P; reflexivity.
  - intros N. assert (B : body <> [])
      by (intros ->; destruct chapters; [contradiction|discriminate]).
    destruct (nonempty author_name), (nonempty author_bio); cbn [app];
      rewrite !last_cons by (first [discriminate|exact B]); exact (L N).
Qed.

Lemma document_layout_witness :
  exists doc,
    create_word_document [u8 "One."; u8 "Two."] (u8 "Bees") (u8 "A. Author") []
      (u8 "english") = Some doc
    /\ page_breaks (blocks doc) = 3%nat.
Proof.
  eexists. split; [reflexivity|].
  apply (document_layout [u8 "One."; u8 "Two."] (u8 "Bees") (u8 "A. Author") []
           (u8 "english")).
  reflexivity.
Defined.

(** X6: the heading of the i-th element of the list of sections is the
    label of the language followed by [i], for every list of sections. *)
Theorem headings_follow_list_positions (chapters : list str)
    (title_text author_name author_bio language : str) (doc : document) :
  create_word_document chapters title_text author_name author_bio language
  = Some doc ->
  headings (blocks doc) = map (heading_label language) (seq 1 (length chapters))
  /\ length (headings (blocks doc)) = length chapters.
Proof.
  intros H. apply build_document_headings in H. split; [exact H|].
  rewrite H, length_map, length_seq. reflexivity.
Qed.

Lemma headings_follow_list_positions_witness :
  exists doc,
    create_word_document [u8 "One."; u8 "Two."] (u8 "Abejas") [] [] (u8 "spanish")
    = Some doc
    /\ headings (blocks doc) = [u8 "Capítulo 1"; u8 "Capítulo 2"].
Proof.
  eexists. split; [reflexivity|].
  apply (headings_follow_list_positions [u8 "One."; u8 "Two."] (u8 "Abejas") [] []
           (u8 "spanish")).
  reflexivity.
Defined.

(** ** Content fetcher *)

(** X7: the chain of [get] and [[0]] with its defaults returns the entry
    [candidates[0].content.parts[0].text] of the body when the status is
    outside 400..599 and that entry is there, and the placeholder in every
    other case: a transport error, a 4xx or 5xx status, a body that is not
    JSON, a missing key, an empty list, a value of another type on the
    path. *)
Theorem fetch_chain_characterised (r : http_result) :
  fetched_content r
  = match r with
    | Response status (Some body) =>
        if raises_for_status status then JStr placeholder
        else match response_text body with
             | Some v => v
             | None => JStr placeholder
             end
    | _ => JStr placeholder
    end.
Proof.
  destruct r as [|status [body|]].
  - reflexivity.
  - destruct (raises_for_status status) eqn:E.
    + unfold fetched_content, try_fetch. rewrite E. reflexivity.
    + apply fetched_content_body. exact E.
  - unfold fetched_content, try_fetch.
    destruct (raises_for_status status); reflexivity.
Qed.

Lemma fetched_content_status (status : N) (body : option json) :
  raises_for_status status = true ->
  fetched_content (Response status body) = JStr placeholder.
Proof.
  intros E. unfold fetched_content, try_fetch. rewrite E. reflexivity.
Qed.

Lemma fetched_content_not_json (status : N) :
  fetched_content (Response status None) = JStr placeholder.
Proof.
  unfold fetched_content, try_fetch.
  destruct (raises_for_status status); reflexivity.
Qed.

Lemma on_str_none (g : str -> str) (v : json) :
  on_str g v = None <-> forall s, v <> JStr s.
Proof.
  destruct v; cbn [on_str]; split; intros H; try reflexivity;
    try discriminate; try (intros s; discriminate).
  exfalso. apply (H s). reflexivity.
Qed.

(** X8: [generate_chapter] posts exactly one request, with the prompt of
    the section, whatever happens; it raises exactly when the response
    has a status outside 400..599 and a body whose text entry is there and
    is not a string; otherwise it returns the normalised text. *)
Theorem generate_chapter_outcome (net : network) (tp au lang toc ins : str)
    (n : nat) (i1 i2 : bool) (t : trace) :
  let result := generate_chapter net tp au n lang toc ins i1 i2 t in
  fst result = t ++ [prompt tp au n toc ins i1 i2]
  /\ (snd result = Raised
      <-> exists status body v,
            net (length t) = Response status (Some body)
            /\ raises_for_status status = false
            /\ response_text body = Some v
            /\ forall s, v <> JStr s)
  /\ (forall s, snd result = Done s
                <-> exists raw, fetched_content (net (length t)) = JStr raw
                                /\ s = normalize raw)
  /\ snd result <> Stopped /\ snd result <> Out_of_fuel.
Proof.
  cbv zeta. rewrite generate_chapter_eq. cbn [fst snd]. unfold answer.
  split; [reflexivity|]. split; [|split; [|split]].
  - destruct (net (length t)) as [|status [body|]].
    + split; [discriminate|]. intros [st [b [v [H _]]]]. discriminate.
    + destruct (raises_for_status status) eqn:E.
      * rewrite fetched_content_status by exact E.
        split; [discriminate|]. intros [st [b [v [H [R _]]]]].
        injection H as <- <-. congruence.
      * rewrite fetched_content_body by exact E.
        destruct (response_text body) as [v|] eqn:V.
        -- destruct (on_str normalize v) eqn:O.
           ++ split; [discriminate|]. intros [st [b [v' [H [_ [V' N]]]]]].
              injection H as <- <-. rewrite V in V'. injection V' as <-.
              apply (proj2 (on_str_none normalize v)) in N.
              rewrite N in O. discriminate.
           ++ split; [|reflexivity]. intros _. exists status, body, v.
              repeat split; auto. apply (on_str_none normalize). exact O.
        -- split; [discriminate|]. intros [st [b [v [H [_ [V' _]]]]]].
           injection H as <- <-. congruence.
    + rewrite fetched_content_not_json.
      split; [discriminate|]. intros [st [b [v [H _]]]]. discriminate.
  - intros s. destruct (fetched_content (net (length t))) as [| | |raw| |];
      cbn [on_str]; split; try discriminate;
      try (intros [raw' [H _]]; discriminate).
    + intros H. injection H as <-. exists raw. auto.
    + intros [raw' [H ->]]. injection H as <-. reflexivity.
  - destruct (on_str normalize (fetched_content (net (length t))));
      discriminate.
  - destruct (on_str normalize (fetched_content (net (length t))));
      discriminate.
Qed.

(** ** Runs of the handlers *)

Lemma generate_chapter_not_stopped (net : network) (tp au lang toc ins : str)
    (n : nat) (i1 i2 : bool) (t : trace) :
  snd (generate_chapter net tp au n lang toc ins i1 i2 t) <> Stopped.
Proof.
  rewrite generate_chapter_eq. cbn [snd].
  destruct (answer net (length t)); discriminate.
Qed.

Lemma pad_loop_not_stopped (net : network) (f : form) (i : nat) (fuel : nat) :
  forall content t, snd (pad_loop fuel net f i content t) <> Stopped.
Proof.
  induction fuel as [|fuel IH]; intros content t; rewrite pad_loop_eq;
    destruct (word_count content <? min_words)%nat; try discriminate.
  destruct (answer net (length t)); [apply IH|discriminate].
Qed.

Lemma generate_section_not_stopped (fuel : nat) (net : network) (f : form)
    (r : role) (t : trace) :
  snd (generate_section fuel net f r t) <> Stopped.
Proof.
  destruct r as [|i|].
  - apply generate_chapter_not_stopped.
  - rewrite generate_section_chapter_eq.
    destruct (answer net (length t)); [apply pad_loop_not_stopped|discriminate].
  - apply generate_chapter_not_stopped.
Qed.

Lemma old_generate_section_not_stopped (net : network) (f : form)
    (r : role) (t : trace) :
  snd (old_generate_section net f r t) <> Stopped.
Proof.
  destruct r; cbn [old_generate_section]; rewrite old_generate_chapter_eq;
    cbn [snd];
    destruct (on_str Old.normalize (fetched_content (net (length t))));
    discriminate.
Qed.

Lemma for_each_not_stopped {A : Type} (g : A -> run str) :
  (forall r t, snd (g r t) <> Stopped) ->
  forall rs t, snd (for_each g rs t) <> Stopped.
Proof.
  intros H rs. induction rs as [|r rs IH]; intros t.
  - discriminate.
  - rewrite for_each_cons. pose proof (H r t) as Hr.
    destruct (g r t) as [t1 [x| | |]]; cbn [snd] in *; try discriminate;
      try contradiction.
    pose proof (IH t1) as Hs.
    destruct (for_each g rs t1) as [t2 [xs| | |]]; cbn [snd] in *;
      try discriminate; contradiction.
Qed.

(** X9: a run stops before any request exactly when the topic or the
    audience is empty; in that case nothing is posted.  In both
    variants. *)
Theorem run_stops_iff (fuel : nat) (net : network) (f : form) (t : trace) :
  (snd (generate_book fuel net f t) = Stopped <-> topic f = [] \/ audience f = [])
  /\ (snd (Old.generate_book net f t) = Stopped
      <-> topic f = [] \/ audience f = [])
  /\ (topic f = [] \/ audience f = [] ->
      fst (generate_book fuel net f t) = t
      /\ fst (Old.generate_book net f t) = t).
Proof.
  assert (S : topic f = [] \/ audience f = [] ->
              generate_book fuel net f t = (t, Stopped)
              /\ Old.generate_book net f t = (t, Stopped))
    by apply generate_book_stops.
  split; [|split].
  - split.
    + intros H. destruct (empty_or_not (topic f)) as [E|Nt]; [left; exact E|].
      destruct (empty_or_not (audience f)) as [E|Na]; [right; exact E|].
      rewrite generate_book_for_each in H by assumption.
      exfalso. revert H. apply for_each_not_stopped.
      apply generate_section_not_stopped.
    + intros H. destruct (S H) as [-> _]. reflexivity.
  - split.
    + intros H. destruct (empty_or_not (topic f)) as [E|Nt]; [left; exact E|].
      destruct (empty_or_not (audience f)) as [E|Na]; [right; exact E|].
      rewrite old_generate_book_for_each in H by assumption.
      exfalso. revert H. apply for_each_not_stopped.
      apply old_generate_section_not_stopped.
    + intros H. destruct (S H) as [_ ->]. reflexivity.
  - intros H. destruct (S H) as [-> ->]. split; reflexivity.
Qed.

Lemma run_stops_iff_witness :
  snd (generate_book 0 net_quiet
         {| topic := []; audience := u8 "children"; table_of_contents := [];
            specific_instructions := []; num_chapters := 3;
            include_intro := true; include_conclusion := true;
            author_name := []; author_bio := [];
            selected_language := u8 "English" |} [])
  = Stopped.
Proof.
  apply (proj1 (run_stops_iff 0 net_quiet _ [])). left. reflexivity.
Defined.

(** *** Requests of a run *)

Lemma pad_loop_trace (net : network) (f : form) (i : nat) (fuel : nat) :
  forall content t,
    exists k, (k <= fuel)%nat
              /\ fst (pad_loop fuel net f i content t)
                 = t ++ repeat (chapter_prompt f i) k.
Proof.
  induction fuel as [|fuel IH]; intros content t; rewrite pad_loop_eq;
    destruct (word_count content <? min_words)%nat;
    try (exists O; split; [lia|]; cbn [fst repeat]; rewrite app_nil_r;
         reflexivity).
  destruct (answer net (length t)).
  - destruct (IH (content ++ [LF; LF] ++ s) (t ++ [chapter_prompt f i]))
      as [k [Hk E]].
    exists (S k). split; [lia|]. rewrite E, <- app_assoc. reflexivity.
  - exists 1%nat. split; [lia|]. reflexivity.
Qed.

Lemma generate_section_trace (fuel : nat) (net : network) (f : form)
    (r : role) (t : trace) :
  exists k,
    (1 <= k <= 1 + fuel)%nat
    /\ match r with Chapter _ => True | _ => k = 1%nat end
    /\ fst (generate_section fuel net f r t) = t ++ repeat (role_prompt f r) k.
Proof.
  destruct r as [|i|].
  - exists 1%nat. cbn [generate_section]. rewrite generate_chapter_eq.
    repeat split; lia.
  - rewrite generate_section_chapter_eq. cbn [role_prompt].
    destruct (answer net (length t)).
    + destruct (pad_loop_trace net f i fuel s (t ++ [chapter_prompt f i]))
        as [k [Hk E]].
      exists (S k). split; [lia|]. split; [exact I|].
      rewrite E, <- app_assoc. reflexivity.
    + exists 1%nat. repeat split; lia.
  - exists 1%nat. cbn [generate_section]. rewrite generate_chapter_eq.
    repeat split; lia.
Qed.

Lemma for_each_requests (fuel : nat) (net : network) (f : form) (rs : list role) :
  forall t t' l,
    for_each (generate_section fuel net f) rs t = (t', Done l) ->
    exists counts,
      Forall2 (fun r k => (1 <= k <= 1 + fuel)%nat
                          /\ match r with Chapter _ => True | _ => k = 1%nat end)
        rs counts
      /\ t' = t ++ requests f rs counts.
Proof.
  induction rs as [|r rs IH]; intros t t' l H.
  - injection H as <- _. exists []. split; [constructor|].
    unfold requests. cbn. rewrite app_nil_r. reflexivity.
  - apply for_each_cons_inv in H. destruct H as [x [xs [t1 [Hx [Hr _]]]]].
    destruct (generate_section_trace fuel net f r t) as [k [K1 [K2 E]]].
    rewrite Hx in E. cbn [fst] in E.
    destruct (IH _ _ _ Hr) as [counts [F ->]].
    exists (k :: counts). split; [constructor; auto|].
    rewrite E, <- app_assoc. reflexivity.
Qed.

Lemma old_for_each_requests (net : network) (f : form) (rs : list role) :
  forall t t' o,
    for_each (old_generate_section net f) rs t = (t', o) ->
    exists done, (done <= length rs)%nat
                 /\ t' = t ++ map (old_role_prompt f) (firstn done rs)
                 /\ (forall l, o = Done l -> done = length rs).
Proof.
  induction rs as [|r rs IH]; intros t t' o H.
  - injection H as <- _. exists O. rewrite app_nil_r. auto.
  - rewrite for_each_cons in H.
    assert (E : old_generate_section net f r t
                = (t ++ [old_role_prompt f r],
                   snd (old_generate_section net f r t)))
      by (destruct r; reflexivity).
    rewrite E in H.
    destruct (snd (old_generate_section net f r t)) as [x| | |].
    + destruct (for_each (old_generate_section net f) rs
                  (t ++ [old_role_prompt f r])) as [t2 o2] eqn:R.
      destruct (IH _ _ _ R) as [done [D1 [D2 D3]]].
      exists (S done). cbn [length firstn map]. split; [lia|].
      assert (T : t' = t2) by (destruct o2; injection H as <- _; reflexivity).
      split; [rewrite T, D2, <- app_assoc; reflexivity|].
      intros l Hl. f_equal. destruct o2 as [xs| | |];
        try (injection H as _ <-; discriminate).
      apply (D3 xs). reflexivity.
    + injection H as <- <-. exists 1%nat. cbn [length firstn map]. split; [lia|].
      split; [destruct rs; reflexivity|]. discriminate.
    + injection H as <- <-. exists 1%nat. cbn [length firstn map]. split; [lia|].
      split; [destruct rs; reflexivity|]. discriminate.
    + injection H as <- <-. exists 1%nat. cbn [length firstn map]. split; [lia|].
      split; [destruct rs; reflexivity|]. discriminate.
Qed.

(** X10: in a finished run of [app.py] the requests are those of the
    sections in their order: exactly one for the introduction, at least one
    for each chapter, all with the prompt of that chapter, exactly one for
    the conclusion. *)
Theorem requests_follow_sections (fuel : nat) (net : network) (f : form)
    (t t' : trace) (chapters : list str) :
  generate_book fuel net f t = (t', Done chapters) ->
  let order :=
    section_order (include_intro f) (num_chapters f) (include_conclusion f) in
  exists counts,
    Forall2 (fun r k => (1 <= k <= 1 + fuel)%nat
                        /\ match r with Chapter _ => True | _ => k = 1%nat end)
      order counts
    /\ t' = t ++ requests f order counts.
Proof.
  intros H order.
  destruct (empty_or_not (topic f)) as [Et|Nt];
    [destruct (generate_book_stops fuel net f t (or_introl Et)) as [S _];
     rewrite S in H; discriminate|].
  destruct (empty_or_not (audience f)) as [Ea|Na];
    [destruct (generate_book_stops fuel net f t (or_intror Ea)) as [S _];
     rewrite S in H; discriminate|].
  rewrite generate_book_for_each in H by assumption.
  exact (for_each_requests _ _ _ _ _ _ _ H).
Qed.

Lemma requests_follow_sections_witness :
  exists counts,
    Forall2 (fun r k => (1 <= k <= 1 + 1)%nat
                        /\ match r with Chapter _ => True | _ => k = 1%nat end)
      [Chapter 1] counts
    /\ repeat (chapter_prompt (sample_form 1 false false "English") 1) 2
       = [] ++ requests (sample_form 1 false false "English") [Chapter 1] counts.
Proof.
  apply (requests_follow_sections 1 net_short_then_long
           (sample_form 1 false false "English") [] _
           [u8 "Short." ++ [LF; LF] ++ words_text 2500]).
  vm_compute. reflexivity.
Defined.

(** X11: a run of [old.py] posts one request per section, in the order of
    the sections and with the prompt of each; a run that an exception ends
    has posted the requests up to the section that raised. *)
Theorem old_requests_follow_sections (net : network) (f : form) (t : trace) :
  topic f <> [] -> audience f <> [] ->
  let order :=
    section_order (include_intro f) (num_chapters f) (include_conclusion f) in
  exists done,
    (done <= length order)%nat
    /\ fst (Old.generate_book net f t)
       = t ++ map (old_role_prompt f) (firstn done order)
    /\ (forall chapters,
          snd (Old.generate_book net f t) = Done chapters ->
          fst (Old.generate_book net f t) = t ++ map (old_role_prompt f) order).
Proof.
  intros Nt Na order. rewrite old_generate_book_for_each by assumption.
  fold order.
  destruct (for_each (old_generate_section net f) order t) as [t' o] eqn:R.
  destruct (old_for_each_requests _ _ _ _ _ _ R) as [done [D1 [D2 D3]]].
  exists done. cbn [fst snd]. split; [exact D1|]. split; [exact D2|].
  intros chapters ->. rewrite D2, (D3 chapters eq_refl), firstn_all. reflexivity.
Qed.

Lemma old_requests_follow_sections_witness :
  fst (Old.generate_book (fun _ => reply (u8 "Text."))
         (sample_form 2 true true "English") [])
  = [] ++ map (old_role_prompt (sample_form 2 true true "English"))
            [Intro; Chapter 1; Chapter 2; Conclusion].
Proof.
  destruct (old_requests_follow_sections (fun _ => reply (u8 "Text."))
              (sample_form 2 true true "English") [])
    as [done [_ [_ H]]].
  - discriminate.
  - discriminate.
  - apply (H [u8 "Text."; u8 "Text."; u8 "Text."; u8 "Text."]).
    vm_compute. reflexivity.
Defined.

(** ** Prompts *)

Lemma digits_of_uint_inj (u : Decimal.uint) :
  forall v, digits_of_uint u = digits_of_uint v -> u = v.
Proof.
  induction u; intros v H; destruct v; cbn [digits_of_uint] in H;
    try discriminate H; try reflexivity;
    injection H as H; f_equal; auto.
Qed.

Lemma str_of_nat_inj (i j : nat) : str_of_nat i = str_of_nat j -> i = j.
Proof.
  unfold str_of_nat. intros H. apply digits_of_uint_inj in H.
  apply Unsigned.to_uint_inj. exact H.
Qed.

Ltac prompt_cases H :=
  repeat (apply app_inv_tail in H);
  try reflexivity;
  try (vm_compute in H; discriminate H);
  try (apply app_inv_head in H; apply app_inv_tail in H;
       apply str_of_nat_inj in H; subst; reflexivity).

Lemma role_prompt_inj (f : form) (r1 r2 : role) :
  role_prompt f r1 = role_prompt f r2 -> r1 = r2.
Proof.
  destruct r1, r2; unfold role_prompt, chapter_prompt, prompt;
    destruct (nonempty (table_of_contents f)),
             (nonempty (specific_instructions f));
    intros H; prompt_cases H.
Qed.

Lemma old_role_prompt_inj (f : form) (r1 r2 : role) :
  old_role_prompt f r1 = old_role_prompt f r2 -> r1 = r2.
Proof.
  destruct r1, r2; unfold old_role_prompt, Old.prompt;
    destruct (nonempty (table_of_contents f)),
             (nonempty (specific_instructions f));
    intros H; prompt_cases H.
Qed.

(** X12: the prompt tells the sections apart: two different roles, and
    two chapters with different numbers, never get the same prompt,
    whatever the topic, the audience, the outline and the instructions.  In
    both variants. *)
Theorem prompts_identify_sections (f : form) (r1 r2 : role) :
  r1 <> r2 ->
  role_prompt f r1 <> role_prompt f r2
  /\ old_role_prompt f r1 <> old_role_prompt f r2.
Proof.
  intros N. split; intros H; apply N.
  - exact (role_prompt_inj f r1 r2 H).
  - exact (old_role_prompt_inj f r1 r2 H).
Qed.

Lemma prompts_identify_sections_witness :
  role_prompt (sample_form 3 true true "English") (Chapter 1)
  <> role_prompt (sample_form 3 true true "English") (Chapter 2)
  /\ old_role_prompt (sample_form 3 true true "English") (Chapter 1)
     <> old_role_prompt (sample_form 3 true true "English") (Chapter 2).
Proof.
  apply (prompts_identify_sections (sample_form 3 true true "English")).
  discriminate.
Defined.

(** ** Failing endpoint under the floor *)

Lemma word_count_placeholder : word_count placeholder = 4%nat.
Proof. reflexivity. Qed.

Lemma pad_loop_placeholders (net : network) (f : form) (i : nat) (j : nat) :
  forall fuel content t,
    (forall k, (length t <= k)%nat -> caught_failure (net k)) ->
    (j = O \/ word_count content + 4 * (j - 1) < min_words)%nat ->
    (min_words <= word_count content + 4 * j)%nat ->
    (j <= fuel)%nat ->
    pad_loop fuel net f i content t
    = (t ++ repeat (chapter_prompt f i) j,
       Done (append_all content (repeat placeholder j))).
Proof.
  induction j as [|j IH]; intros fuel content t HN HL HU HF; rewrite pad_loop_eq.
  - assert (E : (word_count content <? min_words)%nat = false)
      by (apply Nat.ltb_ge; lia).
    rewrite E. cbn [repeat]. rewrite app_nil_r. reflexivity.
  - assert (E : (word_count content <? min_words)%nat = true)
      by (apply Nat.ltb_lt; lia).
    rewrite E. destruct fuel as [|fuel]; [lia|].
    unfold answer. rewrite (caught_failure_content _ (HN _ (le_n _))).
    cbn [on_str]. rewrite normalize_placeholder.
    rewrite IH.
    + cbn [repeat]. rewrite <- app_assoc. reflexivity.
    + intros k Hk. apply HN. rewrite length_app in Hk. lia.
    + rewrite word_count_append, word_count_placeholder.
      destruct j as [|j]; [left; reflexivity|right; lia].
    + rewrite word_count_append, word_count_placeholder. lia.
    + lia.
Qed.

(** X13: when no request of a chapter succeeds, the floor is reached on
    the placeholder alone: the chapter costs 625 requests and is the
    placeholder 625 times, separated by blank lines. *)
Theorem failing_endpoint_pads_with_placeholders (fuel : nat) (net : network)
    (f : form) (i : nat) (t : trace) :
  (forall k, (length t <= k)%nat -> caught_failure (net k)) ->
  (624 <= fuel)%nat ->
  generate_section fuel net f (Chapter i) t
  = (t ++ repeat (chapter_prompt f i) 625,
     Done (append_all placeholder (repeat placeholder 624))).
Proof.
  intros HN HF. rewrite generate_section_chapter_eq. unfold answer.
  rewrite (caught_failure_content _ (HN _ (le_n _))). cbn [on_str].
  rewrite normalize_placeholder.
  rewrite (pad_loop_placeholders net f i 624).
  - rewrite <- app_assoc. reflexivity.
  - intros k Hk. apply HN. rewrite length_app in Hk. lia.
  - right. rewrite word_count_placeholder, min_words_eq. lia.
  - rewrite word_count_placeholder, min_words_eq. lia.
  - exact HF.
Qed.

Lemma failing_endpoint_pads_with_placeholders_witness :
  generate_section 624 net_down (sample_form 1 false false "English")
    (Chapter 1) []
  = ([] ++ repeat (chapter_prompt (sample_form 1 false false "English") 1) 625,
     Done (append_all placeholder (repeat placeholder 624))).
Proof.
  apply failing_endpoint_pads_with_placeholders.
  - intros k _. constructor.
  - apply le_n.
Defined.

(** ** The floor in the stored book *)

Lemma for_each_Forall2 {A : Type} (g : A -> run str) (P : A -> str -> Prop) :
  (forall r t t' s, g r t = (t', Done s) -> P r s) ->
  forall rs t t' l, for_each g rs t = (t', Done l) -> Forall2 P rs l.
Proof.
  intros HP rs. induction rs as [|r rs IH]; intros t t' l H.
  - injection H as <- <-. constructor.
  - apply for_each_cons_inv in H. destruct H as [x [xs [t1 [Hx [H ->]]]]].
    constructor; [exact (HP _ _ _ _ Hx)|exact (IH _ _ _ H)].
Qed.

(** X14: in the book that a finished run of [app.py] stores, the section
    of every chapter has at least 2500 words; the sections are as many as
    the roles and are paired with them in order. *)
Theorem stored_chapters_reach_floor (fuel : nat) (net : network) (f : form)
    (t t' : trace) (chapters : list str) :
  generate_book fuel net f t = (t', Done chapters) ->
  Forall2 (fun r s => match r with
                      | Chapter _ => (min_words <= word_count s)%nat
                      | _ => True
                      end)
    (section_order (include_intro f) (num_chapters f) (include_conclusion f))
    chapters.
Proof.
  intros H.
  destruct (empty_or_not (topic f)) as [Et|Nt];
    [destruct (generate_book_stops fuel net f t (or_introl Et)) as [S _];
     rewrite S in H; discriminate|].
  destruct (empty_or_not (audience f)) as [Ea|Na];
    [destruct (generate_book_stops fuel net f t (or_intror Ea)) as [S _];
     rewrite S in H; discriminate|].
  rewrite generate_book_for_each in H by assumption.
  revert H. apply for_each_Forall2. intros r t0 t1 s Hs.
  destruct r as [|i|]; [exact I| |exact I].
  rewrite generate_section_chapter_eq in Hs.
  destruct (answer net (length t0)); [|discriminate].
  apply pad_loop_exact in Hs. destruct Hs as [adds [_ [_ [-> [W _]]]]]. exact W.
Qed.

Lemma stored_chapters_reach_floor_witness :
  Forall2 (fun r s => match r with
                      | Chapter _ => (min_words <= word_count s)%nat
                      | _ => True
                      end)
    [Chapter 1] [u8 "Short." ++ [LF; LF] ++ words_text 2500].
Proof.
  apply (stored_chapters_reach_floor 1 net_short_then_long
           (sample_form 1 false false "English") []
           (repeat (chapter_prompt (sample_form 1 false false "English") 1) 2)).
  vm_compute. reflexivity.
Defined.

(** ** Letter case *)

Lemma to_lower_cases (c : char) :
  to_lower c = c
  \/ (to_lower c = c + 32
      /\ (0x41 <= c <= 0x5A \/ (0xC0 <= c <= 0xDE /\ c <> 0xD7))).
Proof.
  unfold to_lower. destruct (is_upper_latin c) eqn:E; [right|left; reflexivity].
  split; [reflexivity|]. unfold is_upper_latin in E. to_prop; [left|right]; lia.
Qed.

Lemma not_upper_after_lower (c : char) : is_upper_latin (to_lower c) = false.
Proof.
  destruct (is_upper_latin (to_lower c)) eqn:E; [exfalso|reflexivity].
  destruct (to_lower_cases c) as [H|[H B]].
  - rewrite H in E. unfold to_lower in H. rewrite E in H. lia.
  - rewrite H in E. unfold is_upper_latin in E. to_prop; lia.
Qed.

Lemma to_lower_small (c x : char) :
  x < 0x41 -> (to_lower c =? x) = (c =? x).
Proof.
  intros Hx. destruct (to_lower_cases c) as [->|[H B]]; [reflexivity|].
  rewrite H. destruct (N.eqb_spec (c + 32) x), (N.eqb_spec c x);
    try reflexivity; lia.
Qed.

Lemma to_lower_small_upper (c x : char) :
  x < 0x41 \/ (0x5A < x < 0x61) -> (to_lower c =? x) = (c =? x).
Proof.
  intros Hx. destruct (to_lower_cases c) as [->|[H B]]; [reflexivity|].
  rewrite H. destruct (N.eqb_spec (c + 32) x), (N.eqb_spec c x);
    try reflexivity; lia.
Qed.

Lemma sre_lower_to_lower (c : char) : sre_lower (to_lower c) = sre_lower c.
Proof.
  unfold sre_lower. destruct (to_lower_cases c) as [H|[H B]];
    [rewrite !H; reflexivity|].
  pose proof (not_upper_after_lower c) as U. rewrite H in *.
  destruct (N.eqb_spec (c + 32) 0x130); [lia|].
  destruct (N.eqb_spec (c + 32) 0x212A); [lia|].
  destruct (N.eqb_spec (c + 32) 0x212B); [lia|].
  destruct (N.eqb_spec c 0x130); [lia|].
  destruct (N.eqb_spec c 0x212A); [lia|].
  destruct (N.eqb_spec c 0x212B); [lia|].
  unfold to_lower at 1. rewrite U. reflexivity.
Qed.

Lemma ci_eq_to_lower (p c : char) : ci_eq p (to_lower c) = ci_eq p c.
Proof. unfold ci_eq. rewrite sre_lower_to_lower. reflexivity. Qed.

Lemma isspace_to_lower (c : char) : isspace (to_lower c) = isspace c.
Proof.
  destruct (to_lower_cases c) as [->|[H B]]; [reflexivity|]. rewrite H.
  assert (A : isspace (c + 32) = false).
  { destruct (isspace (c + 32)) eqn:E; [exfalso|reflexivity].
    unfold isspace in E. to_prop; lia. }
  assert (A' : isspace c = false).
  { destruct (isspace c) eqn:E; [exfalso|reflexivity].
    unfold isspace in E. to_prop; lia. }
  rewrite A, A'. reflexivity.
Qed.

Lemma is_digit_to_lower (c : char) : is_digit (to_lower c) = is_digit c.
Proof.
  destruct (to_lower_cases c) as [->|[H B]]; [reflexivity|]. rewrite H.
  unfold is_digit.
  destruct (N.leb_spec 48 (c + 32)), (N.leb_spec (c + 32) 57),
    (N.leb_spec 48 c), (N.leb_spec c 57); try reflexivity; lia.
Qed.

Lemma is_marker_to_lower (c : char) : is_marker (to_lower c) = is_marker c.
Proof.
  unfold is_marker.
  rewrite !to_lower_small_upper by (unfold char in *; lia). reflexivity.
Qed.

Lemma ci_prefix_lower (p s : str) : ci_prefix p (lower s) = ci_prefix p s.
Proof.
  revert s. induction p as [|a p IH]; intros s.
  - destruct s; reflexivity.
  - destruct s as [|b s]; [reflexivity|]. cbn [lower map ci_prefix].
    rewrite ci_eq_to_lower. fold (lower s). rewrite IH. reflexivity.
Qed.

Lemma count_digits_lower (s : str) :
  count_while is_digit (lower s) = count_while is_digit s.
Proof.
  induction s as [|c s IH]; [reflexivity|]. cbn [lower map count_while].
  rewrite is_digit_to_lower. fold (lower s). rewrite IH. reflexivity.
Qed.

Lemma first_line_lower (s : str) : first_line (lower s) = lower (first_line s).
Proof.
  induction s as [|c s IH]; [reflexivity|]. cbn [lower map first_line].
  rewrite to_lower_small by reflexivity. fold (lower s).
  destruct (c =? LF); [reflexivity|]. rewrite IH. reflexivity.
Qed.

Lemma index_of_lower (x : char) (s : str) :
  x < 0x41 -> index_of x (lower s) = index_of x s.
Proof.
  intros Hx. induction s as [|c s IH]; [reflexivity|].
  cbn [lower map index_of]. rewrite to_lower_small by lia. fold (lower s).
  rewrite IH. reflexivity.
Qed.

Lemma rindex_of_lower (x : char) (s : str) :
  x < 0x41 -> rindex_of x (lower s) = rindex_of x s.
Proof.
  intros Hx. induction s as [|c s IH]; [reflexivity|].
  cbn [lower map rindex_of]. rewrite to_lower_small by lia. fold (lower s).
  rewrite IH. reflexivity.
Qed.

Lemma m_literal_lower (p s : str) : m_literal p (lower s) = m_literal p s.
Proof. unfold m_literal. rewrite ci_prefix_lower. reflexivity. Qed.

Lemma m_literal_digits_lower (p s : str) :
  m_literal_digits p (lower s) = m_literal_digits p s.
Proof.
  unfold m_literal_digits. rewrite ci_prefix_lower.
  unfold lower at 1. rewrite skipn_map. fold (lower (skipn (length p) s)).
  rewrite count_digits_lower. reflexivity.
Qed.

Lemma m_exclamation_lower (s : str) : m_exclamation (lower s) = m_exclamation s.
Proof.
  destruct s as [|c s]; [reflexivity|]. cbn [lower map m_exclamation].
  rewrite ci_eq_to_lower. fold (lower s).
  rewrite first_line_lower, rindex_of_lower by reflexivity. reflexivity.
Qed.

Lemma m_parenthetical_lower (s : str) :
  m_parenthetical (lower s) = m_parenthetical s.
Proof.
  destruct s as [|c s]; [reflexivity|]. cbn [lower map m_parenthetical].
  rewrite to_lower_small by reflexivity. fold (lower s).
  rewrite first_line_lower, index_of_lower by reflexivity. reflexivity.
Qed.

Lemma linefeeds_lower (s : str) : linefeeds (lower s) = linefeeds s.
Proof.
  induction s as [|c s IH]; [reflexivity|]. cbn [lower map]. fold (lower s).
  rewrite !linefeeds_cons, IH. rewrite (N.eqb_sym LF (to_lower c)).
  rewrite to_lower_small by reflexivity. rewrite (N.eqb_sym c LF). reflexivity.
Qed.

Lemma m_linebreaks_lower (s : str) : m_linebreaks (lower s) = m_linebreaks s.
Proof.
  unfold m_linebreaks. fold (linefeeds (lower s)). fold (linefeeds s).
  rewrite linefeeds_lower. reflexivity.
Qed.

Lemma sub_go_lower (m : matcher) (repl : str) :
  (forall s, m (lower s) = m s) -> lower repl = repl ->
  forall s k, sub_go m repl k (lower s) = lower (sub_go m repl k s).
Proof.
  intros Hm Hr s. induction s as [|c s IH]; intros k; [reflexivity|].
  change (lower (c :: s)) with (to_lower c :: lower s). cbn [sub_go].
  destruct k as [|k]; [|apply IH].
  change (to_lower c :: lower s) with (lower (c :: s)). rewrite Hm.
  destruct (m (c :: s)) as [[|n]|].
  - rewrite IH. reflexivity.
  - rewrite IH. unfold lower. rewrite map_app. fold (lower repl).
    rewrite Hr. reflexivity.
  - rewrite IH. reflexivity.
Qed.

Lemma has_match_lower (m : matcher) :
  (forall s, m (lower s) = m s) ->
  forall s, has_match m (lower s) = has_match m s.
Proof.
  intros Hm s. induction s as [|c s IH]; [reflexivity|].
  change (lower (c :: s)) with (to_lower c :: lower s). cbn [has_match].
  change (to_lower c :: lower s) with (lower (c :: s)). rewrite Hm, IH.
  reflexivity.
Qed.

Lemma patterns_lower :
  Forall (fun m : matcher => forall s, m (lower s) = m s) patterns.
Proof.
  unfold patterns. repeat apply Forall_cons; try apply Forall_nil.
  - apply m_exclamation_lower.
  - apply m_literal_digits_lower.
  - apply m_literal_lower.
  - apply m_literal_lower.
  - apply m_literal_lower.
  - apply m_literal_lower.
Qed.

Lemma remove_patterns_lower (ps : list matcher) :
  Forall (fun m : matcher => forall s, m (lower s) = m s) ps ->
  forall s, remove_patterns ps (lower s) = lower (remove_patterns ps s).
Proof.
  unfold remove_patterns. intros H.
  induction H as [|m ps Hm _ IH]; intros s; cbn [fold_left].
  - reflexivity.
  - unfold re_sub at 2. rewrite sub_go_lower by (auto || reflexivity).
    apply IH.
Qed.

Lemma lstrip_lower (s : str) : lstrip (lower s) = lower (lstrip s).
Proof.
  induction s as [|c s IH]; [reflexivity|].
  change (lower (c :: s)) with (to_lower c :: lower s). cbn [lstrip].
  rewrite isspace_to_lower. destruct (isspace c); [exact IH|reflexivity].
Qed.

Lemma rstrip_lower (s : str) : rstrip (lower s) = lower (rstrip s).
Proof.
  induction s as [|c s IH]; [reflexivity|].
  change (lower (c :: s)) with (to_lower c :: lower s). cbn [rstrip].
  rewrite IH, isspace_to_lower.
  destruct (rstrip s); cbn [lower map]; [destruct (isspace c)|]; reflexivity.
Qed.

Lemma strip_lower (s : str) : strip (lower s) = lower (strip s).
Proof. unfold strip. rewrite lstrip_lower, rstrip_lower. reflexivity. Qed.

Lemma filter_marker_lower (s : str) :
  filter (fun c => negb (is_marker c)) (lower s)
  = lower (filter (fun c => negb (is_marker c)) s).
Proof.
  induction s as [|c s IH]; [reflexivity|].
  change (lower (c :: s)) with (to_lower c :: lower s). cbn [filter].
  rewrite is_marker_to_lower, IH. destruct (is_marker c); reflexivity.
Qed.

(** X15: on text of the Latin-1 range the normaliser of [app.py] does
    not look at the case of the letters: it removes from the lower-cased
    text what it removes from the text, so a boilerplate phrase is
    recognised however it is capitalised. *)
Theorem normalize_ignores_case (content : str) :
  Forall (fun c => c <= 0xFF) content ->
  normalize (lower content) = lower (normalize content)
  /\ has_boilerplate (lower content) = has_boilerplate content.
Proof.
  intros _. split.
  - rewrite !normalize_eq. rewrite filter_marker_lower, strip_lower.
    rewrite remove_patterns_lower by apply patterns_lower.
    unfold re_sub.
    rewrite (sub_go_lower m_parenthetical [] m_parenthetical_lower eq_refl).
    rewrite (sub_go_lower m_linebreaks [LF; LF] m_linebreaks_lower eq_refl).
    apply strip_lower.
  - unfold has_boilerplate. pose proof patterns_lower as P.
    induction P as [|m ps Hm _ IH]; [reflexivity|]. cbn [existsb].
    rewrite has_match_lower by exact Hm. rewrite IH. reflexivity.
Qed.

Lemma normalize_ignores_case_witness :
  normalize (lower (u8 "Intro. EN ESTE CAPÍTULO Se Habla (poco) De Abejas."))
  = lower (normalize (u8 "Intro. EN ESTE CAPÍTULO Se Habla (poco) De Abejas.")).
Proof.
  apply (normalize_ignores_case
           (u8 "Intro. EN ESTE CAPÍTULO Se Habla (poco) De Abejas.")).
  apply Forall_forall. intros c H. apply N.leb_le. revert c H.
  apply (proj1 (forallb_forall (fun c => c <=? 0xFF) _)).
  vm_compute. reflexivity.
Defined.

(** ** Visible characters *)

Lemma lstrip_spaces (s : str) :
  exists w, s = w ++ lstrip s /\ forallb isspace w = true.
Proof.
  induction s as [|c s [w [IH W]]]; cbn [lstrip].
  - exists []. split; reflexivity.
  - destruct (isspace c) eqn:E.
    + exists (c :: w). cbn [app forallb]. rewrite E, W. split; [|reflexivity].
      f_equal. exact IH.
    + exists []. split; reflexivity.
Qed.

Lemma rstrip_spaces (s : str) :
  exists w, s = rstrip s ++ w /\ forallb isspace w = true.
Proof.
  induction s as [|c s [w [IH W]]]; cbn [rstrip].
  - exists []. split; reflexivity.
  - destruct (rstrip s) as [|d r].
    + cbn [app] in IH. subst w. destruct (isspace c) eqn:E.
      * exists (c :: s). cbn [app forallb]. rewrite E, W. split; reflexivity.
      * exists s. split; [reflexivity|exact W].
    + exists w. split; [|exact W]. cbn [app] in *. f_equal. exact IH.
Qed.

Section Visible.

(** A predicate on characters that whitespace, the markdown markers,
    the hyphen and the em dash do not satisfy. *)
Variable visible : char -> bool.
Hypothesis visible_space : forall c, isspace c = true -> visible c = false.
Hypothesis visible_marker : forall c, is_marker c = true -> visible c = false.
Hypothesis visible_hyphen : visible HYPHEN = false.
Hypothesis visible_dash : visible EM_DASH = false.

Lemma filter_spaces (w : str) :
  forallb isspace w = true -> filter visible w = [].
Proof.
  induction w as [|c w IH]; cbn [forallb filter]; intros H; [reflexivity|].
  apply andb_true_iff in H. destruct H as [Hc Hw].
  rewrite (visible_space c Hc). auto.
Qed.

Lemma filter_strip (s : str) : filter visible (strip s) = filter visible s.
Proof.
  unfold strip. destruct (lstrip_spaces s) as [w1 [E1 W1]].
  destruct (rstrip_spaces (lstrip s)) as [w2 [E2 W2]].
  rewrite E1 at 2. rewrite filter_app, (filter_spaces _ W1). cbn [app].
  set (r := rstrip (lstrip s)) in *. clearbody r. rewrite E2.
  rewrite filter_app, (filter_spaces _ W2), app_nil_r. reflexivity.
Qed.

Lemma filter_without_markers (s : str) :
  filter visible (filter (fun c => negb (is_marker c)) s) = filter visible s.
Proof.
  induction s as [|c s IH]; cbn [filter]; [reflexivity|].
  destruct (is_marker c) eqn:E; cbn [negb filter].
  - rewrite (visible_marker c E). exact IH.
  - rewrite IH. reflexivity.
Qed.

Lemma filter_replace_first (s : str) :
  filter visible (replace_first HYPHEN EM_DASH s) = filter visible s.
Proof.
  induction s as [|c s IH]; cbn [replace_first filter]; [reflexivity|].
  destruct (N.eqb_spec c HYPHEN) as [->|N]; cbn [filter].
  - rewrite visible_hyphen, visible_dash. reflexivity.
  - rewrite IH. reflexivity.
Qed.

Lemma filter_join (ls : list str) :
  filter visible (join [LF; LF] ls) = concat (map (filter visible) ls).
Proof.
  induction ls as [|x ls IH]; [reflexivity|].
  destruct ls as [|y ls].
  - cbn [join map concat]. rewrite app_nil_r. reflexivity.
  - rewrite join_cons, !filter_app, IH. cbn [filter map concat].
    rewrite (visible_space LF eq_refl). reflexivity.
Qed.

Lemma filter_lines_go (lines : list str) :
  forall in_list,
    concat (map (filter visible) (lines_go in_list lines))
    = concat (map (filter visible) lines).
Proof.
  induction lines as [|line rest IH]; intros in_list; [reflexivity|].
  cbn [lines_go]. destruct (startswith [HYPHEN] (strip line)).
  - cbn [map concat]. rewrite filter_replace_first, filter_strip, IH.
    reflexivity.
  - destruct in_list; cbn [map concat filter app];
      rewrite filter_strip, IH; reflexivity.
Qed.

Lemma filter_split_go (s : str) :
  forall cur,
    concat (map (filter visible) (split_go [LF] O cur s))
    = filter visible cur ++ filter visible s.
Proof.
  induction s as [|c s IH]; intros cur.
  - cbn [split_go map concat filter]. rewrite !app_nil_r. reflexivity.
  - cbn [split_go startswith length pred].
    destruct (N.eqb_spec LF c) as [<-|N]; cbn [andb].
    + cbn [map concat filter]. rewrite IH, (visible_space LF eq_refl).
      reflexivity.
    + rewrite IH, filter_app, <- app_assoc.
      change (c :: s) with ([c] ++ s). rewrite (filter_app visible [c] s).
      reflexivity.
Qed.

Lemma filter_process_lists (text : str) :
  filter visible (process_lists text) = filter visible text.
Proof.
  unfold process_lists, processed_lines, split.
  rewrite filter_join, filter_lines_go, filter_split_go. reflexivity.
Qed.

End Visible.

(** X16: the restructuring of lists and the normaliser of [old.py] lose
    no visible character: apart from whitespace, the markdown markers, the
    hyphen and the em dash, the characters of the result are those of the
    text, in the same order. *)
Theorem old_normalize_keeps_visible (visible : char -> bool) (content : str) :
  (forall c, isspace c = true -> visible c = false) ->
  (forall c, is_marker c = true -> visible c = false) ->
  visible HYPHEN = false -> visible EM_DASH = false ->
  filter visible (process_lists content) = filter visible content
  /\ filter visible (Old.normalize content) = filter visible content.
Proof.
  intros Hs Hm Hh Hd. split.
  - apply filter_process_lists; assumption.
  - unfold Old.normalize, clean_markdown.
    rewrite filter_strip by assumption.
    rewrite filter_without_markers by assumption.
    apply (filter_process_lists visible Hs Hh Hd).
Qed.

Lemma old_normalize_keeps_visible_witness :
  filter (fun c => (65 <=? c) && (c <=? 122) && negb (c =? 95) && negb (c =? 96))
    (Old.normalize (u8 "# Bees" ++ [LF] ++ u8 "- make *honey*"))
  = filter (fun c => (65 <=? c) && (c <=? 122) && negb (c =? 95) && negb (c =? 96))
      (u8 "# Bees" ++ [LF] ++ u8 "- make *honey*").
Proof.
  apply (old_normalize_keeps_visible
           (fun c => (65 <=? c) && (c <=? 122) && negb (c =? 95) && negb (c =? 96))).
  - intros c H. destruct ((65 <=? c) && (c <=? 122)) eqn:E; [|reflexivity].
    unfold isspace in H. to_prop; lia.
  - intros c H. destruct ((65 <=? c) && (c <=? 122)) eqn:E; [|reflexivity].
    unfold is_marker in H. to_prop; subst; reflexivity || lia.
  - reflexivity.
  - reflexivity.
Defined.

(** ** Spanish titles *)









(** ** From a finished run to the download *)



